(** * sisl.geom.nanoribbon: ribbons, heteroribbon sections and their junctions

    A shallow embedding of [src/sisl/geom/nanoribbon.py]:
    [nanoribbon], and the methods of [_nanoribbon_section]
    ([__post_init__], [_junction_error], [_shift_unit_cell], [_align_check],
    [_offset_from_center], [build_section], [add_section], [_parse_shift]).

    Python integers are [Z] ([%] is [Z.modulo], [//] is [Z.div]: both floor,
    as in Python, for the positive divisors used here).  Floating point
    numbers and the [Geometry] container are external to the file: they are
    interfaces ([Float], [GeometryAPI]) the code is parametric in.  Methods
    that mutate [self], warn or raise live in a small state-and-exception
    monad [M]. *)

From Stdlib Require Import ZArith List String Ascii Bool Lia QArith.
From Stdlib Require Import Sorting.Sorted Sorting.Permutation.
Import ListNotations.

Local Open Scope string_scope.
Local Open Scope list_scope.
Local Open Scope Z_scope.

Set Implicit Arguments.

(* ================================================================== *)
(** ** Python and numpy primitives used by the module *)

Module Py.

(** [str.lower] on the ASCII range. *)
Definition lower_ascii (c : ascii) : ascii :=
  let n := nat_of_ascii c in
  if (65 <=? n)%nat && (n <=? 90)%nat then ascii_of_nat (n + 32) else c.

Fixpoint lower (s : string) : string :=
  match s with
  | EmptyString => EmptyString
  | String c s' => String (lower_ascii c) (lower s')
  end.

(** [x in (a, b)] for strings. *)
Definition str_in (x : string) (l : list string) : bool :=
  existsb (String.eqb x) l.

(** [np.arange(start, stop, step)] on integers, for [step > 0]. *)
Definition arange (start stop step : Z) : list Z :=
  map (fun i => start + step * Z.of_nat i)
      (seq 0 (Z.to_nat ((stop - start + step - 1) / step))).

(** [np.sort] of an integer array: the ascending arrangement of its
    elements. *)
Fixpoint insert_sorted (x : Z) (l : list Z) : list Z :=
  match l with
  | [] => [x]
  | y :: l' => if x <=? y then x :: l else y :: insert_sorted x l'
  end.

Definition np_sort (l : list Z) : list Z := fold_right insert_sorted [] l.

(** [np.flip]. *)
Definition np_flip (l : list Z) : list Z := rev l.

(** [-a], [np.abs(a)] and [a + k] on arrays. *)
Definition np_neg (l : list Z) : list Z := map Z.opp l.
Definition np_abs (l : list Z) : list Z := map Z.abs l.
Definition np_add (l : list Z) (k : Z) : list Z := map (fun x => x + k) l.

(** [a[:-1]]. *)
Definition drop_last (l : list Z) : list Z := removelast l.

(** [x in a]. *)
Definition np_mem (x : Z) (l : list Z) : bool := existsb (Z.eqb x) l.

(** [np.where(a == x)[0]]: the indices at which [a] holds [x]. *)
Fixpoint np_where_eq (x : Z) (l : list Z) (i : Z) : list Z :=
  match l with
  | [] => []
  | y :: l' => if y =? x then i :: np_where_eq x l' (i + 1)
               else np_where_eq x l' (i + 1)
  end.

(** [np.argmin]: index of the first occurrence of the minimum; [None] on an
    empty array, where numpy raises [ValueError]. *)
Fixpoint argmin_from (best : Z) (besti : Z) (l : list Z) (i : Z) : Z :=
  match l with
  | [] => besti
  | y :: l' => if y <? best then argmin_from y i l' (i + 1)
               else argmin_from best besti l' (i + 1)
  end.

Definition np_argmin (l : list Z) : option Z :=
  match l with
  | [] => None
  | y :: l' => Some (argmin_from y 0 l' 1)
  end.

(** [a[i]] with Python's indexing: a negative [i] counts from the end,
    anything outside [-len, len) is an [IndexError] ([None]). *)
Definition np_index (l : list Z) (i : Z) : option Z :=
  let n := Z.of_nat (List.length l) in
  if (0 <=? i) && (i <? n) then nth_error l (Z.to_nat i)
  else if (- n <=? i) && (i <? 0) then nth_error l (Z.to_nat (i + n))
  else None.

End Py.

Import Py.

(* ================================================================== *)
(** ** External interfaces: floating point numbers and the Geometry container *)

(** Array axes / indices [0], [1], [2]. *)
Inductive axis := Ax0 | Ax1 | Ax2.

(** Python floats: the operations the module applies to them. *)
Class Float (R : Type) := {
  of_int : Z -> R;            (* an int used where a float is expected *)
  of_lit : Q -> R;            (* a decimal literal such as [0.01] or [.5] *)
  fadd : R -> R -> R;
  fsub : R -> R -> R;
  fmul : R -> R -> R;
  fdiv : R -> R -> R;
  fpow : R -> R -> R;
  fneg : R -> R;
  flt : R -> R -> bool;
  feq : R -> R -> bool
}.

Definition vec3 (R : Type) : Type := (R * R * R)%type.

Definition vget {R} (v : vec3 R) (a : axis) : R :=
  let '(x, y, z) := v in
  match a with Ax0 => x | Ax1 => y | Ax2 => z end.

Definition vset {R} (v : vec3 R) (a : axis) (r : R) : vec3 R :=
  let '(x, y, z) := v in
  match a with Ax0 => (r, y, z) | Ax1 => (x, r, z) | Ax2 => (x, y, r) end.

Definition vmap {R} (f : R -> R) (v : vec3 R) : vec3 R :=
  let '(x, y, z) := v in (f x, f y, f z).

Definition vzip {R} (f : R -> R -> R) (u v : vec3 R) : vec3 R :=
  let '(x, y, z) := u in let '(x', y', z') := v in (f x x', f y y', f z z').

(** [np.zeros(3)]. *)
Definition np_zeros3 {R} `{Float R} : vec3 R := (of_int 0, of_int 0, of_int 0).

(** The [sisl.Geometry] methods and attributes used by the module, over
    floats [R], atom specifications [At], geometries [G] and coordinate
    arrays [A].  Every method returns a new geometry; the in-place
    assignments of the source ([g.xyz = ...], [g.cell[i, j] = ...]) are the
    [g_set_*] functions. *)
Class GeometryAPI (R At G A : Type) := {
  honeycomb : R -> At -> G;             (* geom.honeycomb(bond, atoms, orthogonal=True) *)
  g_repeat : G -> Z -> axis -> G;       (* g.repeat(reps, axis) *)
  g_tile : G -> Z -> axis -> G;         (* g.tile(reps, axis) *)
  g_remove : G -> Z -> G;               (* g.remove(index) *)
  g_remove_from : G -> axis -> R -> G;  (* g.remove({"x" or "y": (lo, None)}) *)
  g_rotate : G -> Z -> vec3 Z -> G;     (* g.rotate(angle, v) *)
  g_sort : G -> list axis -> G;         (* g.sort(axis=(...)) *)
  g_move : G -> vec3 R -> G;            (* g.move(v) *)
  g_add_vacuum : G -> R -> axis -> G;   (* g.add_vacuum(vacuum, axis) *)
  g_append : G -> G -> axis -> G;       (* g.append(other, axis) *)
  g_cell : G -> axis -> axis -> R;      (* g.cell[i, j] *)
  g_set_cell : G -> axis -> axis -> R -> G;   (* g.cell[i, j] = v *)
  g_set_cell_diag : G -> vec3 R -> G;   (* g.cell[:, :] = np.diag(v) *)
  g_xyz : G -> A;                       (* g.xyz *)
  g_set_xyz : G -> A -> G;              (* g.xyz = a *)
  g_wrapped : G -> A;                   (* (g.fxyz % 1).dot(g.cell) *)
  a_scale_col : A -> axis -> R -> A;    (* a[:, j] * v *)
  a_min : A -> axis -> R;               (* a[:, j].min() *)
  a_max : A -> axis -> R;               (* a[:, j].max() *)
  a_mean : A -> axis -> R               (* a[:, j].mean() *)
}.

(** [g.cell[i]]: a row of the cell. *)
Definition g_cell_row {R At G A} `{GeometryAPI R At G A} (g : G) (i : axis) : vec3 R :=
  (g_cell g i Ax0, g_cell g i Ax1, g_cell g i Ax2).

(* ================================================================== *)
(** ** Values, exceptions and messages *)

(** The values [nanoribbon] may receive for [width]. *)
Inductive pyvalue :=
| PyInt (z : Z)
| PyFloat (q : Q)
| PyStr (s : string)
| PyNone.

(** [isinstance(v, numbers.Integral)]. *)
Definition is_Integral (v : pyvalue) : bool :=
  match v with PyInt _ => true | _ => false end.

(** The [on_lone_atom] values. *)
Inductive policy := Ignore | Warn | Raise.

Definition policy_eqb (p q : policy) : bool :=
  match p, q with
  | Ignore, Ignore | Warn, Warn | Raise, Raise => true
  | _, _ => false
  end.

Inductive exc_class :=
| ValueError | NotImplementedError | NameError | KeyError | IndexError
| ZeroDivisionError | AttributeError
| PolicyError.   (* what the handler of policy "raise" raises *)

(** What [_junction_error] receives as [what]: a policy string or an
    exception class. *)
Inductive what_arg :=
| WPolicy (p : policy)
| WClass (c : exc_class).

(** The texts passed to [_junction_error], with the values their f-strings
    interpolate. *)
Inductive junction_detail :=
| CannotAppend         (* "... can not be appended to ..." *)
| SameType             (* "Ribbons must be of same type." *)
| SameBond             (* "Ribbons must have same bond length." *)
| CenterParity         (* "Different parity sections can not be aligned by their centers" *)
| OddWiderOpen         (* "LONE ATOMS: Previous odd section, which has an open end, is wider ..." *)
| ShiftBetween (lo hi shift : Z)
                       (* "LONE ATOMS: Shift must be between {lo} and {hi}, but {shift} was provided." *)
| ShiftOneOf (valid_shifts : list Z) (shift : Z).
                       (* "LONE ATOMS: Shift must be one of {valid_shifts} but {shift} was provided." *)


(** Names bound at module level in [nanoribbon.py] (imports and
    definitions), for the f-string of [__post_init__]. *)
Definition module_globals : list string :=
  [ "dataclass"; "field"; "Integral"; "np"; "composite_geometry"; "set_module";
    "geom"; "Atom"; "Geometry"; "__all__"; "nanoribbon"; "graphene_nanoribbon";
    "agnr"; "zgnr"; "_nanoribbon_section"; "heteroribbon"; "graphene_heteroribbon" ].

Section WithAPI.

Context {R At G A : Type} {FloatR : Float R} {API : GeometryAPI R At G A}.

(** The section object: the dataclass fields, then the attributes set by
    [__post_init__] and [build_section]. *)
Record _nanoribbon_section := mk_section {
  W : Z;
  L : Z;
  shift : Z;
  align : string;
  atoms : At;
  bond : R;
  kind : string;
  shift_quantum : bool;
  on_lone_atom : policy;
  invert_first : bool;
  long_ax : axis;
  trans_ax : axis;
  _open_borders : bool * bool;
  geometry : G;
  xyz : option A        (* unset until the section is built *)
}.

Inductive message :=
| MsgWidth (width : pyvalue)
    (* "nanoribbon: width needs to be a postive integer ({width})!" *)
| MsgKind (kind : string)
    (* "nanoribbon: kind must be armchair or zigzag ({kind})" *)
| MsgUnknownKind (kind : string)
    (* "Unknown kind={kind}, must be one of zigzag or armchair" *)
| MsgAlign (align : string)
    (* "Invalid value for 'align': {align}. Must be one of ..." *)
| MsgJunction (prev self : _nanoribbon_section) (d : junction_detail)
    (* "Error at junction between sections {prev} and {self}. {msg}" *)
| MsgNameNotDefined (name : string)
| MsgNoAttribute (name : string)
| MsgArgminEmpty      (* numpy: "attempt to get argmin of an empty sequence" *)
| MsgKey (k : Z)
| MsgIndex
| MsgZeroDivision.

(** The result of a call: a value, or a raised exception. *)
Inductive outcome (T : Type) :=
| Ok (v : T)
| Raised (c : exc_class) (m : message).

Arguments Ok {T} v.
Arguments Raised {T} c m.

Definition obind {T U} (c : outcome T) (k : T -> outcome U) : outcome U :=
  match c with
  | Ok v => k v
  | Raised e m => Raised e m
  end.

Definition is_ok {T} (c : outcome T) : bool :=
  match c with Ok _ => true | Raised _ _ => false end.

(** Methods run on [self] and may warn: the state is the section and the
    warnings issued so far; a raised exception keeps the state reached. *)
Record state := mk_state {
  self : _nanoribbon_section;
  warnings : list message
}.

Definition M (T : Type) : Type := state -> outcome T * state.

Definition ret {T} (v : T) : M T := fun st => (Ok v, st).

Definition bind {T U} (c : M T) (k : T -> M U) : M U :=
  fun st =>
    match c st with
    | (Ok v, st') => k v st'
    | (Raised e m, st') => (Raised e m, st')
    end.

Definition raise {T} (e : exc_class) (m : message) : M T :=
  fun st => (Raised e m, st).

Definition get_self : M _nanoribbon_section := fun st => (Ok (self st), st).

Definition put_self (s : _nanoribbon_section) : M unit :=
  fun st => (Ok tt, mk_state s (warnings st)).

Definition warn (m : message) : M unit :=
  fun st => (Ok tt, mk_state (self st) (warnings st ++ [m])).

Definition when (b : bool) (c : M unit) : M unit := if b then c else ret tt.

End WithAPI.

Arguments _nanoribbon_section : clear implicits.
Arguments message : clear implicits.
Arguments state : clear implicits.
Arguments outcome : clear implicits.
Arguments M : clear implicits.
Arguments Ok {R At G A T} v.
Arguments Raised {R At G A T} c m.

Declare Scope py_scope.
Delimit Scope py_scope with py.
Notation "x <- c ;; k" := (bind c (fun x => k))
  (at level 61, c at next level, right associativity) : py_scope.
Notation "c ;; k" := (bind c (fun _ => k))
  (at level 61, right associativity) : py_scope.
Notation "x <~ c ;; k" := (obind c (fun x => k))
  (at level 61, c at next level, right associativity) : py_scope.
Local Open Scope py_scope.

(* ================================================================== *)
(** ** The module's functions *)

Section Code.

Context {R At G A : Type} {FloatR : Float R} {API : GeometryAPI R At G A}.

Local Abbreviation section := (_nanoribbon_section R At G A).
Local Abbreviation msg := (message R At G A).
Local Abbreviation Mon := (M R At G A).
Local Abbreviation result := (outcome R At G A).

(** *** [nanoribbon] *)

Definition nanoribbon (bond : R) (atoms : At) (width : pyvalue) (kind : string)
  : result G :=
  match width with
  | PyInt width =>
      (* Width characterization *)
      let width := Z.max width 1 in
      let n := width / 2 in
      let m := width mod 2 in
      let ribbon := honeycomb bond atoms in
      let kind := lower kind in
      ribbon <~
        (if (kind =? "armchair")%string then
           Ok (if m =? 1
               then g_remove (g_remove (g_repeat ribbon (n + 1) Ax1) (3 * (n + 1))) 0
               else g_repeat ribbon n Ax1)
         else if (kind =? "zigzag")%string then
           let ribbon := g_rotate ribbon 90 (0, 0, -1) in
           let ribbon :=
             if m =? 1
             then g_remove (g_remove (g_tile ribbon (n + 1) Ax0) (-1)) (-1)
             else g_tile ribbon n Ax0 in
           (* Invert y-coordinates *)
           let ribbon := g_set_xyz ribbon (a_scale_col (g_xyz ribbon) Ax1 (of_int (-1))) in
           (* Set lattice vectors strictly orthogonal *)
           let ribbon :=
             g_set_cell_diag ribbon
               (g_cell ribbon Ax1 Ax0, fneg (g_cell ribbon Ax0 Ax1), g_cell ribbon Ax2 Ax2) in
           (* Sort along x, then y *)
           Ok (g_sort ribbon [Ax0; Ax1])
         else Raised ValueError (MsgKind kind)) ;;
      (* Separate ribbons along y-axis *)
      let ribbon := g_set_cell ribbon Ax1 Ax1 (fadd (g_cell ribbon Ax1 Ax1) (of_lit 20)) in
      (* Move inside unit cell *)
      let xyz :=
        vzip fmul (a_min (g_xyz ribbon) Ax0, a_min (g_xyz ribbon) Ax1, a_min (g_xyz ribbon) Ax2)
                  (of_int 1, of_int 1, of_int 0) in
      Ok (g_move ribbon (vzip fadd (vmap fneg xyz) (of_int 0, of_int 10, of_int 0)))
  | _ =>
      (* not isinstance(width, Integral) *)
      Raised ValueError (MsgWidth width)
  end.

(** *** [_nanoribbon_section.__post_init__] *)

(** The arguments of the dataclass constructor. *)
Record section_args := mk_args {
  arg_W : pyvalue;
  arg_L : Z;
  arg_shift : Z;
  arg_align : string;
  arg_atoms : At;
  arg_bond : R;
  arg_kind : string;
  arg_shift_quantum : bool;
  arg_on_lone_atom : policy;
  arg_invert_first : bool
}.

(** Evaluating a name inside a function whose local names are [locals]. *)
Definition eval_name (locals : list string) (name : string) : result unit :=
  if str_in name locals || str_in name module_globals then Ok tt
  else Raised NameError (MsgNameNotDefined name).

Definition __post_init__ (a : section_args) : result section :=
  axes <~
    (if (arg_kind a =? "armchair")%string then Ok (Ax0, Ax1)
     else if (arg_kind a =? "zigzag")%string then Ok (Ax1, Ax0)
     else
       (* the f-string reads the name [kind], not [self.kind] *)
       _ <~ eval_name ["self"] "kind" ;;
       Raised ValueError (MsgUnknownKind (arg_kind a))) ;;
  let on_lone_atom := if arg_shift_quantum a then Raise else arg_on_lone_atom a in
  let _open_borders := (false, false) in
  geometry <~ nanoribbon (arg_bond a) (arg_atoms a) (arg_W a) (arg_kind a) ;;
  match arg_W a with
  | PyInt w =>
      Ok (mk_section w (arg_L a) (arg_shift a) (arg_align a) (arg_atoms a) (arg_bond a)
            (arg_kind a) (arg_shift_quantum a) on_lone_atom (arg_invert_first a)
            (fst axes) (snd axes) _open_borders geometry None)
  | v => Raised ValueError (MsgWidth v)   (* [nanoribbon] has raised already *)
  end.

(** *** Error handling *)

(** Modelled from the spec: [composite_geometry.Section.create_error_handler]
    ([sisl/geom/_composite.py]) is not among the sources.  The spec's failure
    policy hook: [ignore] suppresses, [warn] emits a non-fatal warning and
    proceeds, [raise] aborts the build with the message.  An exception class
    given in place of a policy is raised with the message. *)
Definition create_error_handler (what : what_arg) (m : msg) : Mon unit :=
  match what with
  | WPolicy Ignore => ret tt
  | WPolicy Warn => warn m
  | WPolicy Raise => raise PolicyError m
  | WClass c => raise c m
  end.

Definition _junction_error (what : what_arg) (prev : section) (d : junction_detail)
  : Mon unit :=
  s <- get_self ;;
  create_error_handler what (MsgJunction prev s d).

(** *** [_shift_unit_cell] *)

Definition _shift_unit_cell (geometry : G) : Mon G :=
  s <- get_self ;;
  let geometry :=
    g_move geometry (vmap (fun x => fdiv x (of_int 2)) (g_cell_row geometry (long_ax s))) in
  ret (g_set_xyz geometry (g_wrapped geometry)).

(** [previous.xyz]: an [AttributeError] on a section that was never built. *)
Definition get_xyz (previous : section) : Mon A :=
  match xyz previous with
  | Some a => ret a
  | None => raise AttributeError (MsgNoAttribute "xyz")
  end.

(** *** [_align_check] *)

Definition _align_check (previous : option section) (geom_add : G)
  : Mon (string * R * bool) :=
  s <- get_self ;;
  let align := lower (align s) in
  match previous with
  | None => ret (align, of_int 0, true)
  | Some previous =>
      (* short-hand *)
      let geom_xyz := g_xyz geom_add in
      let W_diff := W s - W previous in
      let align :=
        if str_in align ["a"; "auto"] then
          if (W s mod 2 =? 1) && (W_diff mod 2 =? 0) then
            (* Both ribbons are odd, so we align on the center *)
            "c"
          else if W previous mod 2 =? 0 then
            (* The previous section is even: align on its open edge. *)
            if snd (_open_borders previous) then "t" else "b"
          else
            (* An incoming even section: align on the bottom. *)
            "b"
        else align in
      if str_in align ["c"; "center"] then
        when (W_diff mod 2 =? 1)
             (_junction_error (WPolicy Raise) previous CenterParity) ;;
        pxyz <- get_xyz previous ;;
        ret (align,
             fsub (a_mean pxyz (trans_ax s)) (a_mean geom_xyz (trans_ax s)),
             Bool.eqb (negb (snd (_open_borders previous))) (W_diff mod 4 =? 0))
      else if str_in align ["t"; "top"] then
        pxyz <- get_xyz previous ;;
        ret (align,
             fsub (a_max pxyz (trans_ax s)) (a_max geom_xyz (trans_ax s)),
             negb (snd (_open_borders previous)))
      else if str_in align ["b"; "bottom"] then
        let last_bot_edge_open :=
          Bool.eqb (W previous mod 2 =? 1) (snd (_open_borders previous)) in
        let this_bot_edge_open := W s mod 2 =? 0 in
        pxyz <- get_xyz previous ;;
        ret (align,
             fsub (a_min pxyz (trans_ax s)) (a_min geom_xyz (trans_ax s)),
             Bool.eqb last_bot_edge_open this_bot_edge_open)
      else
        raise ValueError (MsgAlign align)
  end.

(** *** [_offset_from_center] *)

(** [s[0]] on a string. *)
Definition first_char (s : string) : Mon ascii :=
  match s with
  | EmptyString => raise IndexError MsgIndex
  | String c _ => ret c
  end.

Definition _offset_from_center (align : string) (previous : section) : Mon Z :=
  s <- get_self ;;
  align <- first_char (lower align) ;;
  let W_diff := W s - W previous in
  (* Number of atoms that hang out if we align on the center *)
  if Ascii.eqb align "t" then ret ((- W_diff) / 2)
  else if Ascii.eqb align "b" then ret (W_diff / 2)
  else ret 0.

(** *** [_parse_shift] *)

(** A dict with integer keys, in insertion order. *)
Definition dict_set (d : list (Z * Z)) (k v : Z) : list (Z * Z) :=
  if existsb (fun kv => fst kv =? k) d
  then map (fun kv => if fst kv =? k then (k, v) else kv) d
  else d ++ [(k, v)].

Definition dict_get (d : list (Z * Z)) (k : Z) : Mon Z :=
  match find (fun kv => fst kv =? k) d with
  | Some kv => ret (snd kv)
  | None => raise KeyError (MsgKey k)
  end.

(** What [min_shift] and [max_shift] hold in the branch with an even
    section: nothing usable ([None]), two ints, or two lists. *)
Inductive shift_bounds :=
| BNone
| BInt (min_shift max_shift : Z)
| BList (min_shift max_shift : list Z).

(** The array [valid_shifts] of [_parse_shift], as sorted just before the
    requested shift is checked (the code between the odd-wider-open check
    and [if self.shift_quantum]). *)
Definition valid_shifts_of (previous : section) (align : string) : Mon (list Z) :=
  s <- get_self ;;
  let W_diff := W s - W previous in
  let diff_mod := W_diff mod 4 in
  valid_shifts <-
    (if (diff_mod mod 2 =? 0) && (W s mod 2 =? 1) then
       (* Both sections are odd *)
       if W s <? W previous then
         let closed := W previous / 2 + W s / 2 - 2 in
         let open := W previous / 2 - W s / 2 - 1 in
         let shift_pars :=
           fold_left (fun d lim => dict_set d (lim mod 2) lim) [closed; open] [] in
         (* Build an array with all the valid shifts. *)
         sp0 <- dict_get shift_pars 0 ;;
         sp1 <- dict_get shift_pars 1 ;;
         let valid_shifts := np_sort (arange 0 (sp0 + 1) 2 ++ arange 1 (sp1 + 1) 2) in
         let valid_shifts := drop_last (np_flip (np_neg valid_shifts)) ++ valid_shifts in
         shift_offset <- _offset_from_center align previous ;;
         ret (np_add valid_shifts shift_offset)
       else if W previous =? W s then
         ret [0]
       else
         let shift_lim :=
           if (diff_mod =? 2) && snd (_open_borders previous)
              || (diff_mod =? 0) && negb (snd (_open_borders previous))
           then ((W_diff / 2) / 2) * 2
           else if snd (_open_borders previous)
                then W_diff / 2 - 1
                else W_diff / 2 + (W previous / 2 - 1) * 2 in
         shift_offset <- _offset_from_center align previous ;;
         let min_shift := - shift_lim + shift_offset in
         let max_shift := shift_lim + shift_offset in
         ret (arange min_shift (max_shift + 1) 2)
     else
       (* There is at least one even section. *)
       let '(special_shifts, bounds) :=
         if diff_mod mod 2 =? 0 then
           (* Both ribbons are even *)
           if snd (_open_borders previous)
           then ([W previous - W s], BInt (W previous - W s + 1) (W previous - 1))
           else ([0], BInt (- W s + 1) (-1))
         else if W s mod 2 =? 1 then
           (* Last section was even, incoming section is odd. *)
           if W s <? W previous then
             if snd (_open_borders previous)
             then ([W previous - W s],
                   BInt (W previous - W s) (W previous - W s + 1 + ((W s - 2) / 2) * 2))
             else ([0], BInt (-1 - ((W s - 2) / 2) * 2) (-1))
           else
             if snd (_open_borders previous)
             then ([], BInt 0 (W previous - 2))
             else ([], BInt (- (W s - 2)) (-1))
         else
           (* Last section was odd, incoming section is even. *)
           if snd (_open_borders previous)
           then ([0; W previous - W s], BNone)
           else ([], BList [1; - (W s - 2)] [W previous - 2; W previous - W s - 1]) in
       let valid_shifts :=
         special_shifts ++
         match bounds with
         | BInt min_shift max_shift => arange min_shift (max_shift + 1) 2
         | BList min_shift max_shift =>
             flat_map (fun '(m, mx) => arange m (mx + 1) 2) (combine min_shift max_shift)
         | BNone => []
         end in
       (* Apply offset on shifts based on the actual alignment requested. *)
       a0 <- first_char align ;;
       shift_offset <-
         (if Ascii.eqb a0 "t" then ret W_diff
          else if Ascii.eqb a0 "c" then
            o <- _offset_from_center "b" previous ;; ret (- o)
          else ret 0) ;;
       ret (np_add valid_shifts shift_offset)) ;;
  ret (np_sort valid_shifts).

(** The index [aligned_shift] of quantized mode. *)
Definition aligned_shift_of (valid_shifts : list Z) : Mon Z :=
  let n_valid_shifts := Z.of_nat (List.length valid_shifts) in
  (* Find out if it is possible to perfectly align. *)
  if np_mem 0 valid_shifts then
    match np_where_eq 0 valid_shifts 0 with
    | i :: _ => ret i
    | [] => raise IndexError MsgIndex
    end
  else
    (* If not, the smallest shift; the flip prioritizes upwards shifts. *)
    match np_argmin (np_abs (np_flip valid_shifts)) with
    | Some i => ret (n_valid_shifts - 1 - i)
    | None => raise ValueError MsgArgminEmpty
    end.

(** The end of [_parse_shift]: the requested shift checked against, or
    looked up in, the sorted [valid_shifts]. *)
Definition resolve_shift (shift : Z) (previous : section) (valid_shifts : list Z)
  : Mon Z :=
  s <- get_self ;;
  if shift_quantum s then
    let n_valid_shifts := Z.of_nat (List.length valid_shifts) in
    aligned_shift <- aligned_shift_of valid_shifts ;;
    (* Calculate which index we really need to retrieve *)
    let corrected_shift := aligned_shift + shift in
    when ((corrected_shift <? 0) || (n_valid_shifts <=? corrected_shift))
         (_junction_error (WPolicy (on_lone_atom s)) previous
            (ShiftBetween (- aligned_shift) (n_valid_shifts - aligned_shift - 1) shift)) ;;
    (* And finally get the shift value *)
    match np_index valid_shifts corrected_shift with
    | Some v => ret v
    | None => raise IndexError MsgIndex
    end
  else
    when (negb (np_mem shift valid_shifts))
         (_junction_error (WPolicy (on_lone_atom s)) previous
            (ShiftOneOf valid_shifts shift)) ;;
    ret shift.

Definition _parse_shift (shift : Z) (previous : section) (align : string) : Mon Z :=
  s <- get_self ;;
  if policy_eqb (on_lone_atom s) Ignore then ret shift
  else
    (* An open odd ribbon joined with a smaller ribbon always leaves
       dangling bonds, whatever the shift. *)
    when ((W previous mod 2 =? 1) && (W s <? W previous) && snd (_open_borders previous))
         (_junction_error (WPolicy Raise) previous OddWiderOpen) ;;
    valid_shifts <- valid_shifts_of previous align ;;
    (* Finally, check if the provided shift value is valid or not. *)
    resolve_shift shift previous valid_shifts.

(** *** [build_section]

    [previous] is only read, and only before [self] is written
    ([previous.xyz], [previous._open_borders[1]] in [_align_check] and
    [_parse_shift]), so it is passed as a value. *)

(** [self._open_borders[0] = not self._open_borders[0]]. *)
Definition flip_open_border0 : Mon unit :=
  s <- get_self ;;
  put_self (mk_section (W s) (L s) (shift s) (align s) (atoms s) (bond s) (kind s)
              (shift_quantum s) (on_lone_atom s) (invert_first s) (long_ax s) (trans_ax s)
              (negb (fst (_open_borders s)), snd (_open_borders s))
              (geometry s) (xyz s)).

(** [self._open_borders[1] = b]. *)
Definition set_open_border1 (b : bool) : Mon unit :=
  s <- get_self ;;
  put_self (mk_section (W s) (L s) (shift s) (align s) (atoms s) (bond s) (kind s)
              (shift_quantum s) (on_lone_atom s) (invert_first s) (long_ax s) (trans_ax s)
              (fst (_open_borders s), b)
              (geometry s) (xyz s)).

(** [self.xyz = a]. *)
Definition set_xyz (a : A) : Mon unit :=
  s <- get_self ;;
  put_self (mk_section (W s) (L s) (shift s) (align s) (atoms s) (bond s) (kind s)
              (shift_quantum s) (on_lone_atom s) (invert_first s) (long_ax s) (trans_ax s)
              (_open_borders s) (geometry s) (Some a)).

(** [tiles, res = divmod(self.L + 1, 2)], [cut_last = res == 0]. *)
Definition tiles_of (L : Z) : Z := (L + 1) / 2.
Definition cut_last_of (L : Z) : bool := (L + 1) mod 2 =? 0.

(** [self.L / (self.L + 1)]: true division of ints. *)
Definition int_truediv (a b : Z) : Mon R :=
  if b =? 0 then raise ZeroDivisionError MsgZeroDivision
  else ret (fdiv (of_int a) (of_int b)).

(** The tiling and trimming at the end of [build_section]. *)
Definition tile_and_cut (new_section : G) : Mon G :=
  s <- get_self ;;
  let tiles := tiles_of (L s) in
  let cut_last := cut_last_of (L s) in
  (* Tile the current section unit cell *)
  let new_section := g_tile new_section tiles (long_ax s) in
  (* Cut the last string of atoms. *)
  if cut_last then
    f <- int_truediv (L s) (L s + 1) ;;
    let new_section := g_set_cell new_section Ax0 Ax0 (fmul (g_cell new_section Ax0 Ax0) f) in
    (* Remove everything from (here, \infty) *)
    ret (g_remove_from new_section (long_ax s)
           (fsub (g_cell new_section (long_ax s) (long_ax s)) (of_lit (1 # 100))))
  else ret new_section.

(** The first half of [build_section]: the unit cell of the section,
    placed against [previous]. *)
Definition place_unit_cell (previous : option section) : Mon G :=
  s <- get_self ;;
  let new_section := geometry s in
  match previous with
  | None =>
      if invert_first s then
        new_section <- _shift_unit_cell new_section ;;
        flip_open_border0 ;;
        ret new_section
      else ret new_section
  | Some previous =>
      (* there is something behind it; it is a [_nanoribbon_section] by typing *)
      when (negb (kind s =? kind previous)%string)
           (_junction_error (WClass NotImplementedError) previous SameType) ;;
      when (negb (feq (bond s) (bond previous)))
           (_junction_error (WClass NotImplementedError) previous SameBond) ;;
      r <- _align_check (Some previous) new_section ;;
      let '(align, offset, aligned_match) := r in
      shift <- _parse_shift (shift s) previous align ;;
      (* Get the distance of an atom shift. (sin(60) = 3**.5 / 2) *)
      let atom_shift :=
        fdiv (fmul (bond s) (fpow (of_int 3) (of_lit (1 # 2)))) (of_int 2) in
      (* Shift the incoming section if the vertical shift makes them not match. *)
      new_section <-
        (if Bool.eqb aligned_match (shift mod 2 =? 1) then
           new_section <- _shift_unit_cell new_section ;;
           flip_open_border0 ;;
           ret new_section
         else ret new_section) ;;
      (* Apply the offset that we have calculated. *)
      let move := vset np_zeros3 (trans_ax s) (fadd offset (fmul (of_int shift) atom_shift)) in
      ret (g_move new_section move)
  end.

Definition build_section (previous : option section) : Mon G :=
  new_section <- place_unit_cell previous ;;
  new_section <- tile_and_cut new_section ;;
  s <- get_self ;;
  set_open_border1 (negb (Bool.eqb (fst (_open_borders s)) (cut_last_of (L s)))) ;;
  set_xyz (g_xyz new_section) ;;
  ret new_section.

(** *** [add_section] *)

Definition add_section (geometry : option G) (previous : list section) : Mon G :=
  (* this section addition only uses the last added method *)
  let previous :=
    if 0 <? Z.of_nat (List.length previous)
    then nth_error previous (List.length previous - 1)    (* previous[-1] *)
    else None in
  (* Create the new section to be added... *)
  new_section <- build_section previous ;;
  match geometry with
  | None => ret new_section
  | Some geometry =>
      s <- get_self ;;
      (* Avoid going out of the cell in the transversal direction *)
      let new_min := a_min (g_xyz new_section) (trans_ax s) in
      let new_max := a_max (g_xyz new_section) (trans_ax s) in
      let '(geometry, new_section) :=
        if flt new_min (of_int 0) then
          let cell_offset := fadd (fneg new_min) (of_int 14) in
          let geometry := g_add_vacuum geometry cell_offset (trans_ax s) in
          let move := vset np_zeros3 (trans_ax s) cell_offset in
          (g_move geometry move, g_move new_section move)
        else (geometry, new_section) in
      let geometry :=
        if flt (g_cell geometry Ax1 Ax1) new_max then
          g_add_vacuum geometry
            (fadd (fsub new_max (g_cell geometry (trans_ax s) (trans_ax s))) (of_int 14))
            (trans_ax s)
        else geometry in
      set_xyz (g_xyz new_section) ;;
      (* Finally, we can safely append the geometry. *)
      ret (g_append geometry new_section (long_ax s))
  end.

(** *** Vocabulary of the statements *)

(** The alignment the spec gives for [align="auto"] in front of [prev]:
    center (["c"]) for two odd widths, else the open edge of an even previous
    section (["t"] or ["b"]), else the bottom. *)
Definition auto_resolved (s prev : section) : string :=
  if (W s mod 2 =? 1) && (W prev mod 2 =? 1) then "c"
  else if W prev mod 2 =? 0 then (if snd (_open_borders prev) then "t" else "b")
  else "b".

(** A section with its mutable attributes ([_open_borders], [xyz]) reset. *)
Definition static (s : section) : section :=
  mk_section (W s) (L s) (shift s) (align s) (atoms s) (bond s) (kind s)
    (shift_quantum s) (on_lone_atom s) (invert_first s) (long_ax s) (trans_ax s)
    (false, false) (geometry s) None.

(** [c] changes nothing of [self] but [_open_borders] and [xyz]. *)
Definition framed {T} (c : Mon T) : Prop :=
  forall st r st', c st = (r, st') -> static (self st') = static (self st).

(** [c] leaves [self] as it is (it may warn). *)
Definition readonly {T} (c : Mon T) : Prop :=
  forall st r st', c st = (r, st') -> self st' = self st.

(** [c] leaves [self] and the warnings as they are. *)
Definition stateless {T} (c : Mon T) : Prop :=
  forall st r st', c st = (r, st') -> st' = st.

(** When [c] raises, [self] is as it was. *)
Definition keeps_self_on_raise {T} (c : Mon T) : Prop :=
  forall st e m st', c st = (Raised e m, st') -> self st' = self st.

(** The values [_align_check] accepts for [align], lower-cased. *)
Definition align_values : list string :=
  ["a"; "auto"] ++ ["c"; "center"] ++ ["t"; "top"] ++ ["b"; "bottom"].

(** *** [graphene_nanoribbon], [agnr], [zgnr]

    [Atom] is the constructor [Atom(Z=z, R=r)] of the external atom class;
    [bond] is given by the caller (its default is [1.42]). *)
Definition graphene_nanoribbon (Atom : Z -> R -> At)
    (width : pyvalue) (bond : R) (atoms : option At) (kind : string) : result G :=
  let atoms :=
    match atoms with
    | None => Atom 6 (fmul bond (of_lit (101 # 100)))
    | Some atoms => atoms
    end in
  nanoribbon bond atoms width kind.

Definition agnr (Atom : Z -> R -> At) (width : pyvalue) (bond : R) (atoms : option At)
  : result G :=
  graphene_nanoribbon Atom width bond atoms "armchair".

Definition zgnr (Atom : Z -> R -> At) (width : pyvalue) (bond : R) (atoms : option At)
  : result G :=
  graphene_nanoribbon Atom width bond atoms "zigzag".

End Code.

(* ================================================================== *)
(** ** A reference instance of the interfaces

    Exact rational numbers for the floats, and a geometry that is a cell
    matrix with a list of atom positions.  It follows the documented
    behaviour of the [Geometry] methods for the orthogonal cells the ribbons
    have; it serves to run the functions above on concrete sections. *)

Module Exact.

Definition num := Q.

(** Square root to three decimals, for [x ** .5]. *)
Definition qsqrt (x : Q) : Q :=
  Qred (Z.sqrt (Qnum x * 1000000 / Z.pos (Qden x)) # 1000).

Definition qfloor (x : Q) : Z := Qnum x / Z.pos (Qden x).

Definition qlt (a b : Q) : bool := negb (Qle_bool b a).

#[export] Instance float_Q : Float Q := {|
  of_int := fun z => inject_Z z;
  of_lit := fun q => Qred q;
  fadd := fun a b => Qred (a + b);
  fsub := fun a b => Qred (a - b);
  fmul := fun a b => Qred (a * b);
  fdiv := fun a b => Qred (a / b);
  fpow := fun a b => if Qeq_bool b (1 # 2) then qsqrt a else a;
  fneg := fun a => Qred (- a);
  flt := qlt;
  feq := Qeq_bool
|}.

Definition pos := vec3 Q.

Record geom := mk_geom {
  cell : vec3 pos;        (* the rows of the cell matrix *)
  pts : list pos;         (* the atom positions, in order *)
  species : string
}.

Definition padd (u v : pos) : pos := vzip (fun a b => Qred (a + b)) u v.
Definition pscale (k : Q) (u : pos) : pos := vmap (fun a => Qred (k * a)) u.

Definition set_row (g : geom) (i : axis) (r : pos) : geom :=
  mk_geom (vset (cell g) i r) (pts g) (species g).

Definition copies (n : Z) : list Q := map (fun i => inject_Z (Z.of_nat i)) (seq 0 (Z.to_nat n)).

(** [tile]: the whole cell is repeated. *)
Definition tile (g : geom) (n : Z) (i : axis) : geom :=
  mk_geom (vset (cell g) i (pscale (inject_Z n) (vget (cell g) i)))
          (flat_map (fun k => map (padd (pscale k (vget (cell g) i))) (pts g)) (copies n))
          (species g).

(** [repeat]: each atom is repeated in turn. *)
Definition repeat (g : geom) (n : Z) (i : axis) : geom :=
  mk_geom (vset (cell g) i (pscale (inject_Z n) (vget (cell g) i)))
          (flat_map (fun p => map (fun k => padd (pscale k (vget (cell g) i)) p) (copies n)) (pts g))
          (species g).

Fixpoint remove_nth {T} (n : nat) (l : list T) : list T :=
  match n, l with
  | _, [] => []
  | O, _ :: l' => l'
  | S n', x :: l' => x :: remove_nth n' l'
  end.

Definition remove (g : geom) (i : Z) : geom :=
  let n := Z.of_nat (List.length (pts g)) in
  let i := if i <? 0 then i + n else i in
  mk_geom (cell g) (if i <? 0 then pts g else remove_nth (Z.to_nat i) (pts g)) (species g).

Definition remove_from (g : geom) (i : axis) (lo : Q) : geom :=
  mk_geom (cell g) (filter (fun p => qlt (vget p i) lo) (pts g)) (species g).

(** A quarter turn about [-z]; any other rotation is left out. *)
Definition rot (p : pos) : pos := let '(x, y, z) := p in (y, Qred (- x), z).

Definition rotate (g : geom) (angle : Z) (v : vec3 Z) : geom :=
  if (angle =? 90) && (vget v Ax2 =? -1)
  then mk_geom (vmap rot (cell g)) (map rot (pts g)) (species g)
  else g.

Fixpoint lex_ltb (axes : list axis) (p q : pos) : bool :=
  match axes with
  | [] => false
  | a :: axes' =>
      if qlt (vget p a) (vget q a) then true
      else if qlt (vget q a) (vget p a) then false
      else lex_ltb axes' p q
  end.

Fixpoint insert_by (lt : pos -> pos -> bool) (p : pos) (l : list pos) : list pos :=
  match l with
  | [] => [p]
  | q :: l' => if lt p q then p :: l else q :: insert_by lt p l'
  end.

Definition sort (g : geom) (axes : list axis) : geom :=
  mk_geom (cell g) (fold_right (insert_by (lex_ltb axes)) [] (pts g)) (species g).

Definition move (g : geom) (v : pos) : geom :=
  mk_geom (cell g) (map (padd v) (pts g)) (species g).

Definition cell_at (g : geom) (i j : axis) : Q := vget (vget (cell g) i) j.

Definition set_cell (g : geom) (i j : axis) (v : Q) : geom :=
  set_row g i (vset (vget (cell g) i) j v).

Definition add_vacuum (g : geom) (v : Q) (i : axis) : geom :=
  set_cell g i i (Qred (cell_at g i i + v)).

Definition append (g other : geom) (i : axis) : geom :=
  mk_geom (vset (cell g) i (padd (vget (cell g) i) (vget (cell other) i)))
          (pts g ++ map (padd (vget (cell g) i)) (pts other))
          (species g).

Definition set_cell_diag (g : geom) (d : pos) : geom :=
  let '(a, b, c) := d in
  mk_geom ((a, 0, 0), (0, b, 0), (0, 0, c))%Q (pts g) (species g).

(** A coordinate folded into [0, c). *)
Definition qwrap (x c : Q) : Q :=
  if Qeq_bool c 0%Q then x else Qred (x - inject_Z (qfloor (x / c)) * c).

Definition wrapped (g : geom) : list pos :=
  map (fun '(x, y, z) =>
         (qwrap x (cell_at g Ax0 Ax0), qwrap y (cell_at g Ax1 Ax1), qwrap z (cell_at g Ax2 Ax2)))
      (pts g).

Definition col (a : list pos) (i : axis) : list Q := map (fun p => vget p i) a.

Definition qmin (a b : Q) : Q := if qlt b a then b else a.
Definition qmax (a b : Q) : Q := if qlt a b then b else a.

Definition fold1 (f : Q -> Q -> Q) (l : list Q) : Q :=
  match l with
  | [] => 0%Q
  | x :: l' => fold_left f l' x
  end.

Definition mean (l : list Q) : Q :=
  match l with
  | [] => 0%Q
  | _ => Qred (fold_left Qplus l 0%Q / inject_Z (Z.of_nat (List.length l)))
  end.

(** The orthogonal four-atom honeycomb cell; [866 / 1000] stands for
    [3 ** .5 / 2]. *)
Definition honeycomb_cell (bond : Q) (at_ : string) : geom :=
  let s := (866 # 1000)%Q in
  mk_geom (pscale bond (3, 0, 0), pscale bond (0, 2 * s, 0), pscale bond (0, 0, 10))%Q
          (map (pscale bond) [(0, 0, 0); (1 # 2, s, 0); (3 # 2, s, 0); (2, 0, 0)])%Q
          at_.

#[export] Instance api : GeometryAPI Q string geom (list pos) := {|
  honeycomb := honeycomb_cell;
  g_repeat := repeat;
  g_tile := tile;
  g_remove := remove;
  g_remove_from := remove_from;
  g_rotate := rotate;
  g_sort := sort;
  g_move := move;
  g_add_vacuum := add_vacuum;
  g_append := append;
  g_cell := cell_at;
  g_set_cell := set_cell;
  g_set_cell_diag := set_cell_diag;
  g_xyz := pts;
  g_set_xyz := fun g a => mk_geom (cell g) a (species g);
  g_wrapped := wrapped;
  a_scale_col := fun a i v => map (fun p => vset p i (Qred (vget p i * v))) a;
  a_min := fun a i => fold1 qmin (col a i);
  a_max := fun a i => fold1 qmax (col a i);
  a_mean := fun a i => mean (col a i)
|}.

Abbreviation section := (_nanoribbon_section Q string geom (list pos)).

(** [heteroribbon.Section(W, L, shift, align, atoms="C", bond=1.42, kind, ...)]. *)
Definition args (W L shift : Z) (align kind : string) (quantum : bool) (p : policy)
  : section_args :=
  mk_args (PyInt W) L shift align "C" (142 # 100)%Q kind quantum p false.

(** Running a method on a section, from no warnings. *)
Definition run {T} (c : M Q string geom (list pos) T) (s : section)
  : outcome Q string geom (list pos) T * state Q string geom (list pos) :=
  c (mk_state s []).

(** A placeholder for the section of a construction that raised. *)
Definition blank : section :=
  mk_section 0 0 0 "" "" 0%Q "" false Ignore false Ax0 Ax1 (false, false)
    (mk_geom ((0, 0, 0), (0, 0, 0), (0, 0, 0))%Q [] "") None.

(** The section constructed from [a]. *)
Definition construct (a : section_args) : section :=
  match __post_init__ a with Ok s => s | Raised _ _ => blank end.

(** The geometry returned by a call ([geometry blank] when it raised). *)
Definition returned (r : outcome Q string geom (list pos) geom) : geom :=
  match r with Ok g => g | Raised _ _ => geometry blank end.

(** *** Sections used below

    [Section(7, 2)], [Section(5, 1)], [Section(1, 2)]: armchair first
    sections, as constructed and as left by [build_section(None)]. *)
Definition sec7 : section :=
  Eval vm_compute in construct (args 7 2 0 "bottom" "armchair" false Raise).
Definition ribbon7 : geom :=
  Eval vm_compute in returned (fst (run (build_section None) sec7)).
Definition prev7 : section :=
  Eval vm_compute in self (snd (run (build_section None) sec7)).

Definition sec5 : section :=
  Eval vm_compute in construct (args 5 1 0 "bottom" "armchair" false Ignore).
Definition prev5 : section :=
  Eval vm_compute in self (snd (run (build_section None) sec5)).

Definition sec1 : section :=
  Eval vm_compute in construct (args 1 2 0 "bottom" "armchair" false Ignore).
Definition prev1 : section :=
  Eval vm_compute in self (snd (run (build_section None) sec1)).

(** Incoming sections: [Section(7, 2, shift=1, on_lone_atom="warn")],
    [Section(3, 1, on_lone_atom="warn")], [Section(3, 2, shift_quantum=True)],
    [Section(9, 2, align="auto")], [Section(8, 2, align="Center")]. *)
Definition sec7_warn : section :=
  Eval vm_compute in construct (args 7 2 1 "bottom" "armchair" false Warn).
Definition sec3_warn : section :=
  Eval vm_compute in construct (args 3 1 0 "bottom" "armchair" false Warn).
Definition sec3_quantum : section :=
  Eval vm_compute in construct (args 3 2 0 "bottom" "armchair" true Ignore).
Definition sec9_auto : section :=
  Eval vm_compute in construct (args 9 2 0 "auto" "armchair" false Raise).
Definition sec8_center : section :=
  Eval vm_compute in construct (args 8 2 0 "Center" "armchair" false Ignore).

(** Zigzag: [Section(2, 1, kind="zigzag")], whose last row is to be cut;
    and [Section(2, 2, kind="zigzag")] with its composite, followed by
    [Section(2, 2, shift=2, kind="zigzag")]. *)
Definition zig2 : section :=
  Eval vm_compute in construct (args 2 1 0 "bottom" "zigzag" false Ignore).

Definition zig_first : section :=
  Eval vm_compute in construct (args 2 2 0 "bottom" "zigzag" false Ignore).
Definition zig_composite : geom :=
  Eval vm_compute in returned (fst (run (add_section None []) zig_first)).
Definition zig_prev : section :=
  Eval vm_compute in self (snd (run (add_section None []) zig_first)).
Definition zig_up : section :=
  Eval vm_compute in construct (args 2 2 2 "bottom" "zigzag" false Ignore).
Definition zig_up_built : geom :=
  Eval vm_compute in returned (fst (run (build_section (Some zig_prev)) zig_up)).
Definition zig_joined : geom :=
  Eval vm_compute in
    returned (fst (run (add_section (Some zig_composite) [zig_prev]) zig_up)).

(** More sections: [Section(6, 1)] first, left with an open top border;
    behind it or behind [Section(7, 2)]: [Section(6, 2, on_lone_atom="raise")],
    [Section(3, 2, on_lone_atom="raise")], [Section(9, 2, align="center",
    shift_quantum=True)], [Section(9, 2, shift=5, align="Top")]; and
    [Section(7, 2, invert_first=True)]. *)
Definition sec6 : section :=
  Eval vm_compute in construct (args 6 1 0 "bottom" "armchair" false Ignore).
Definition prev6 : section :=
  Eval vm_compute in self (snd (run (build_section None) sec6)).
Definition sec6_raise : section :=
  Eval vm_compute in construct (args 6 2 0 "bottom" "armchair" false Raise).
Definition sec3_raise : section :=
  Eval vm_compute in construct (args 3 2 0 "bottom" "armchair" false Raise).
Definition sec9_quantum : section :=
  Eval vm_compute in construct (args 9 2 0 "center" "armchair" true Ignore).
Definition sec9_ignore : section :=
  Eval vm_compute in construct (args 9 2 5 "Top" "armchair" false Ignore).

(** [Atom(Z=z, R=r)] in the reference instance: carbon for [z = 6]. *)
Definition atom_of (z : Z) (r : Q) : string := if z =? 6 then "C" else "X".

End Exact.

(* ================================================================== *)
(** ** Properties *)

Section Properties.

Context {R At G A : Type} {FloatR : Float R} {API : GeometryAPI R At G A}.

Local Abbreviation section := (_nanoribbon_section R At G A).
Local Abbreviation msg := (message R At G A).
Local Abbreviation Mon := (M R At G A).
Local Abbreviation st_ := (state R At G A).
Local Abbreviation framed c := (@framed R At G A _ c).

(** *** The monad *)

Lemma bind_ok {T U} (c : Mon T) (k : T -> Mon U) st v st' :
  c st = (Ok v, st') -> bind c k st = k v st'.
Proof. intros H. unfold bind. now rewrite H. Qed.

Lemma bind_raised {T U} (c : Mon T) (k : T -> Mon U) st e m st' :
  c st = (Raised e m, st') -> bind c k st = (Raised e m, st').
Proof. intros H. unfold bind. now rewrite H. Qed.

Lemma bind_inv {T U} (c : Mon T) (k : T -> Mon U) st v st' :
  bind c k st = (Ok v, st') ->
  exists u st1, c st = (Ok u, st1) /\ k u st1 = (Ok v, st').
Proof.
  unfold bind. destruct (c st) as [[u|e m] st1]; intros H.
  - now exists u, st1.
  - discriminate.
Qed.

Lemma policy_eqb_eq p q : policy_eqb p q = true <-> p = q.
Proof. destruct p, q; simpl; split; congruence. Qed.

(** Unfolds the monadic plumbing of a goal. *)
Ltac mred :=
  cbv beta delta [bind ret raise get_self put_self warn when
                  _junction_error create_error_handler first_char get_xyz] iota;
  cbn [self warnings fst snd].

(** Runs the first computation of a [bind] whose outcome is known. *)
Ltac mbind := erewrite bind_ok by reflexivity; cbv beta; cbn [self warnings].

(** *** Equal odd widths: the only valid shift is 0 (C1) *)

Lemma valid_shifts_equal_odd (s prev : section) (al : string) (ws : list msg) :
  W prev = W s -> W s mod 2 = 1 ->
  valid_shifts_of prev al (mk_state s ws) = (Ok [0], mk_state s ws).
Proof.
  intros HW Hodd. unfold valid_shifts_of. mred.
  rewrite HW, Z.sub_diag. change (0 mod 4 mod 2 =? 0) with true.
  rewrite Hodd. cbn [andb Z.eqb]. rewrite Z.ltb_irrefl, Z.eqb_refl.
  reflexivity.
Qed.

Lemma str_in_two (x a b : string) :
  str_in x [a; b] = true -> x = a \/ x = b.
Proof.
  unfold str_in. cbn [existsb]. rewrite !orb_true_iff, !String.eqb_eq.
  intros [H | [H | H]]; auto. discriminate.
Qed.

(** C1.  Between two sections of the same odd width, with a lone-atom
    policy other than ignore, the valid shifts are exactly [0]; without
    quantization the shift 0 is returned unchanged and any other shift is
    reported through the section's policy with a message that lists the valid
    set: fatal under raise, a warning (and the shift returned) under warn. *)
Theorem equal_odd_widths_only_zero (s prev : section) (al : string) (ws : list msg) :
  W prev = W s -> W s mod 2 = 1 -> on_lone_atom s <> Ignore ->
  let st := mk_state s ws in
  valid_shifts_of prev al st = (Ok [0], st)
  /\ (shift_quantum s = false ->
      _parse_shift 0 prev al st = (Ok 0, st)
      /\ forall sh, sh <> 0 ->
           _parse_shift sh prev al st
           = bind (_junction_error (WPolicy (on_lone_atom s)) prev (ShiftOneOf [0] sh))
                  (fun _ => ret sh) st
           /\ (on_lone_atom s = Raise ->
               _parse_shift sh prev al st
               = (Raised PolicyError (MsgJunction prev s (ShiftOneOf [0] sh)), st))
           /\ (on_lone_atom s = Warn ->
               _parse_shift sh prev al st
               = (Ok sh, mk_state s (ws ++ [MsgJunction prev s (ShiftOneOf [0] sh)])))).
Proof.
  intros HW Hodd Hpol st. subst st.
  assert (Hvs := valid_shifts_equal_odd s prev al ws HW Hodd).
  split; [exact Hvs|]. intros Hq.
  assert (Hpre : forall sh,
             _parse_shift sh prev al (mk_state s ws)
             = resolve_shift sh prev [0] (mk_state s ws)).
  { intros sh. unfold _parse_shift. mbind.
    destruct (policy_eqb (on_lone_atom s) Ignore) eqn:E.
    - apply policy_eqb_eq in E. contradiction.
    - assert (Hlt : (W s <? W prev) = false) by (rewrite HW; apply Z.ltb_irrefl).
      rewrite Hlt, andb_false_r. cbn [andb when]. mbind.
      now rewrite (bind_ok _ _ _ Hvs). }
  assert (Hres : forall sh,
             resolve_shift sh prev [0] (mk_state s ws)
             = bind (when (negb (np_mem sh [0]))
                       (_junction_error (WPolicy (on_lone_atom s)) prev (ShiftOneOf [0] sh)))
                    (fun _ => ret sh) (mk_state s ws)).
  { intros sh. unfold resolve_shift. mbind. now rewrite Hq. }
  split.
  - rewrite Hpre, Hres. reflexivity.
  - intros sh Hsh.
    assert (Hmem : np_mem sh [0] = false).
    { unfold np_mem. cbn [existsb]. rewrite orb_false_r. now apply Z.eqb_neq. }
    rewrite Hpre, Hres, Hmem. cbn [negb when].
    split; [reflexivity|]. split; intros Hp.
    + mred. now rewrite Hp.
    + mred. now rewrite Hp.
Qed.

(** *** A wider odd previous section with an open end (C4) *)

(** C4, amended.  When the previous width is odd, strictly greater than the
    incoming width, and the previous top border is open, shift resolution
    returns the requested shift unchecked under ignore, and under warn as
    under raise it aborts with the lone-atom junction error: this check is
    raised with the fixed severity "raise". *)
Theorem odd_wider_open_is_fatal (s prev : section) (al : string) (sh : Z) (ws : list msg) :
  W prev mod 2 = 1 -> W s < W prev -> snd (_open_borders prev) = true ->
  let st := mk_state s ws in
  (on_lone_atom s = Ignore -> _parse_shift sh prev al st = (Ok sh, st))
  /\ (on_lone_atom s <> Ignore ->
      _parse_shift sh prev al st
      = (Raised PolicyError (MsgJunction prev s OddWiderOpen), st)).
Proof.
  intros Hodd Hlt Hopen st. subst st.
  split; intros Hp; unfold _parse_shift;
    mbind.
  - now rewrite Hp.
  - destruct (policy_eqb (on_lone_atom s) Ignore) eqn:E.
    + apply policy_eqb_eq in E. contradiction.
    + rewrite Hodd, Hopen. apply Z.ltb_lt in Hlt. rewrite Hlt.
      reflexivity.
Qed.

(** *** Alignment (C6, C7) *)

Lemma both_odd_iff (w p : Z) :
  (w mod 2 =? 1) && (p mod 2 =? 1) = (w mod 2 =? 1) && ((w - p) mod 2 =? 0).
Proof.
  destruct (Z.eqb_spec (w mod 2) 1) as [Hw|Hw]; cbn [andb]; [|reflexivity].
  rewrite Zminus_mod, Hw.
  assert (Hp : p mod 2 = 0 \/ p mod 2 = 1) by (pose proof (Z.mod_pos_bound p 2); lia).
  destruct Hp as [Hp|Hp]; rewrite Hp; reflexivity.
Qed.

(** C6.  In front of a previous section, [align="auto"] (or ["a"], in any
    case) resolves to the center alias ["c"] when both widths are odd, which
    is when the incoming width is odd and the difference even; otherwise,
    when the previous width is even, to the previous section's open edge
    (["t"] when its top border is open, else ["b"]); otherwise to ["b"].  Two
    odd widths always give the center. *)
Theorem auto_alignment_resolution (s prev : section) (g : G) (pxyz : A) (ws : list msg) :
  str_in (lower (align s)) ["a"; "auto"] = true ->
  xyz prev = Some pxyz ->
  (exists offset aligned_match,
     _align_check (Some prev) g (mk_state s ws)
     = (Ok (auto_resolved s prev, offset, aligned_match), mk_state s ws))
  /\ ((W s mod 2 =? 1) && (W prev mod 2 =? 1)
      = (W s mod 2 =? 1) && ((W s - W prev) mod 2 =? 0))
  /\ (W s mod 2 = 1 -> W prev mod 2 = 1 -> auto_resolved s prev = "c").
Proof.
  intros Hauto Hxyz. split; [|split].
  - unfold _align_check. mbind. rewrite Hauto.
    rewrite <- both_odd_iff. unfold auto_resolved.
    destruct ((W s mod 2 =? 1) && (W prev mod 2 =? 1)) eqn:E.
    + cbn [str_in existsb String.eqb Ascii.eqb Bool.eqb orb].
      rewrite both_odd_iff in E. apply andb_prop in E as [_ E].
      apply Z.eqb_eq in E. rewrite E. cbn [Z.eqb].
      mred; rewrite Hxyz; eauto.
    + destruct (W prev mod 2 =? 0); [destruct (snd (_open_borders prev))|];
        cbn [str_in existsb String.eqb Ascii.eqb Bool.eqb orb];
        mred; rewrite Hxyz; eauto.
  - apply both_odd_iff.
  - intros Hs Hp. unfold auto_resolved. now rewrite Hs, Hp.
Qed.

Lemma align_check_center_odd (s prev : section) (g : G) (ws : list msg) :
  str_in (lower (align s)) ["c"; "center"] = true ->
  (W s - W prev) mod 2 = 1 ->
  _align_check (Some prev) g (mk_state s ws)
  = (Raised PolicyError (MsgJunction prev s CenterParity), mk_state s ws).
Proof.
  intros Hc Hodd. unfold _align_check. mbind.
  apply str_in_two in Hc. rewrite Hodd.
  destruct Hc as [Hc|Hc]; rewrite Hc; reflexivity.
Qed.

(** C7.  Between sections whose widths differ by an odd amount: when center
    alignment is requested (["c"] or ["center"], in any case),
    [_align_check] raises the junction error with the fixed severity
    "raise", whatever the section's policy, and returns no offset, and the
    build of the section fails; and an "auto" request never resolves to the
    center there. *)
Theorem center_alignment_parity_is_fatal (s prev : section) (g : G) (ws : list msg) :
  (W s - W prev) mod 2 = 1 ->
  (str_in (lower (align s)) ["c"; "center"] = true ->
   _align_check (Some prev) g (mk_state s ws)
   = (Raised PolicyError (MsgJunction prev s CenterParity), mk_state s ws)
   /\ exists e m,
        build_section (Some prev) (mk_state s ws) = (Raised e m, mk_state s ws))
  /\ auto_resolved s prev <> "c".
Proof.
  intros Hodd. split.
  - intros Hc. split; [now apply align_check_center_odd|].
    unfold build_section, place_unit_cell.
    destruct (negb (kind s =? kind prev)%string) eqn:Ek.
    { eexists _, _. erewrite bind_raised; [reflexivity|].
      mbind. rewrite Ek. reflexivity. }
    destruct (negb (feq (bond s) (bond prev))) eqn:Eb.
    { eexists _, _. erewrite bind_raised; [reflexivity|].
      mbind. rewrite Ek, Eb. cbn [when]. mbind. reflexivity. }
    eexists _, _. erewrite bind_raised; [reflexivity|].
    mbind. rewrite Ek, Eb. cbn [when]. mbind. mbind.
    erewrite bind_raised; [reflexivity|].
    now apply align_check_center_odd.
  - unfold auto_resolved. rewrite both_odd_iff, Hodd. cbn [Z.eqb].
    rewrite andb_false_r.
    destruct (W prev mod 2 =? 0); [destruct (snd (_open_borders prev))|]; discriminate.
Qed.

(** *** What the methods leave alone *)

Lemma framed_ret {T} (v : T) : framed (ret v).
Proof. intros st r st' H. now inversion H. Qed.

Lemma framed_raise {T} e m : framed (raise (T := T) e m).
Proof. intros st r st' H. now inversion H. Qed.

Lemma framed_get_self : framed get_self.
Proof. intros st r st' H. now inversion H. Qed.

Lemma framed_warn m : framed (warn m).
Proof. intros st r st' H. now inversion H. Qed.

Lemma framed_put_self (s : section) :
  (forall st, static s = static (self st)) -> framed (put_self s).
Proof. intros Hs st r st' H. inversion H. cbn. apply Hs. Qed.

Lemma framed_bind {T U} (c : Mon T) (k : T -> Mon U) :
  framed c -> (forall v, framed (k v)) -> framed (bind c k).
Proof.
  intros Hc Hk st r st' H. unfold bind in H.
  destruct (c st) as [[v|e m] st1] eqn:E.
  - rewrite (Hk v _ _ _ H). exact (Hc _ _ _ E).
  - inversion H; subst. exact (Hc _ _ _ E).
Qed.

Lemma framed_when b (c : Mon unit) : framed c -> framed (when b c).
Proof. intros Hc. destruct b; [exact Hc | apply framed_ret]. Qed.

Lemma framed_create_error_handler what m : framed (create_error_handler what m).
Proof.
  destruct what as [[| |]|c]; cbn;
    first [apply framed_ret | apply framed_warn | apply framed_raise].
Qed.

Lemma framed_junction_error what prev d : framed (_junction_error what prev d).
Proof.
  apply framed_bind; [apply framed_get_self | intros; apply framed_create_error_handler].
Qed.

Lemma framed_setter (f : section -> section) :
  (forall s, static (f s) = static s) ->
  framed (bind get_self (fun s => put_self (f s))).
Proof. intros Hf st r st' H. inversion H. cbn. apply Hf. Qed.

Lemma framed_flip_open_border0 : framed flip_open_border0.
Proof. apply (framed_setter (fun s => mk_section _ _ _ _ _ _ _ _ _ _ _ _ _ _ _)). reflexivity. Qed.

Lemma framed_set_open_border1 b : framed (set_open_border1 b).
Proof. apply (framed_setter (fun s => mk_section _ _ _ _ _ _ _ _ _ _ _ _ _ _ _)). reflexivity. Qed.

Lemma framed_set_xyz a : framed (set_xyz a).
Proof. apply (framed_setter (fun s => mk_section _ _ _ _ _ _ _ _ _ _ _ _ _ _ _)). reflexivity. Qed.

(** Splits a computation along its binds and branches. *)
Ltac framed_step :=
  match goal with
  | |- framed (bind _ _) => apply framed_bind; [|intros ?]
  | |- framed (ret _) => apply framed_ret
  | |- framed (raise _ _) => apply framed_raise
  | |- framed get_self => apply framed_get_self
  | |- framed (when _ _) => apply framed_when
  | |- framed (_junction_error _ _ _) => apply framed_junction_error
  | |- framed flip_open_border0 => apply framed_flip_open_border0
  | |- framed (set_open_border1 _) => apply framed_set_open_border1
  | |- framed (set_xyz _) => apply framed_set_xyz
  | |- framed (if ?b then _ else _) => destruct b
  | |- framed (match ?x with _ => _ end) => destruct x
  | |- framed (let '(_, _) := ?x in _) => destruct x
  end.

Ltac framed_auto := repeat framed_step.

Lemma framed_first_char str : framed (first_char str).
Proof. unfold first_char. framed_auto. Qed.

Lemma framed_get_xyz prev : framed (get_xyz prev).
Proof. unfold get_xyz. framed_auto. Qed.

Lemma framed_dict_get d k : framed (dict_get d k).
Proof. unfold dict_get. framed_auto. Qed.

Lemma framed_int_truediv a b : framed (int_truediv a b).
Proof. unfold int_truediv. framed_auto. Qed.

Lemma framed_shift_unit_cell g : framed (_shift_unit_cell g).
Proof. unfold _shift_unit_cell. framed_auto. Qed.

Lemma framed_offset_from_center al prev : framed (_offset_from_center al prev).
Proof. unfold _offset_from_center. framed_auto; apply framed_first_char. Qed.

Lemma framed_align_check previous g : framed (_align_check previous g).
Proof. unfold _align_check. framed_auto; apply framed_get_xyz. Qed.

Lemma framed_valid_shifts_of prev al : framed (valid_shifts_of prev al).
Proof.
  unfold valid_shifts_of. framed_auto;
    first [apply framed_dict_get | apply framed_offset_from_center | apply framed_first_char].
Qed.

Lemma framed_aligned_shift_of vs : framed (aligned_shift_of vs).
Proof. unfold aligned_shift_of. framed_auto. Qed.

Lemma framed_resolve_shift sh prev vs : framed (resolve_shift sh prev vs).
Proof. unfold resolve_shift. framed_auto; apply framed_aligned_shift_of. Qed.

Lemma framed_parse_shift sh prev al : framed (_parse_shift sh prev al).
Proof.
  unfold _parse_shift. framed_auto;
    first [apply framed_valid_shifts_of | apply framed_resolve_shift].
Qed.

Lemma framed_tile_and_cut g : framed (tile_and_cut g).
Proof. unfold tile_and_cut. framed_auto; apply framed_int_truediv. Qed.

Lemma framed_place_unit_cell previous : framed (place_unit_cell previous).
Proof.
  unfold place_unit_cell. framed_auto;
    first [apply framed_shift_unit_cell | apply framed_align_check
          | apply framed_parse_shift].
Qed.

Lemma framed_build_section previous : framed (build_section previous).
Proof.
  unfold build_section. framed_auto;
    first [apply framed_place_unit_cell | apply framed_tile_and_cut].
Qed.

Lemma static_L (s s' : section) : static s' = static s -> L s' = L s.
Proof. intros H. now inversion H. Qed.

Lemma static_long_ax (s s' : section) : static s' = static s -> long_ax s' = long_ax s.
Proof. intros H. now inversion H. Qed.

(** *** The top border after a build (C2) *)

Lemma neq_bool_xorb (a b : bool) : negb (Bool.eqb a b) = xorb a b.
Proof. now destruct a, b. Qed.

(** C2.  Whenever [build_section] returns, for a first section or behind a
    previous one and from any earlier state of the section,
    [_open_borders[1]] is [_open_borders[0]] XOR [cut_last], where
    [cut_last] is [(L + 1) % 2 == 0] for the section's [L], which the build
    leaves unchanged. *)
Theorem build_section_top_border (previous : option section) (st st' : st_) (g : G) :
  build_section previous st = (Ok g, st') ->
  snd (_open_borders (self st'))
  = xorb (fst (_open_borders (self st'))) (cut_last_of (L (self st')))
  /\ cut_last_of (L (self st')) = ((L (self st) + 1) mod 2 =? 0).
Proof.
  intros H.
  assert (HL : L (self st') = L (self st))
    by (apply static_L; exact (framed_build_section _ _ H)).
  split; [|now rewrite HL].
  unfold build_section in H.
  apply bind_inv in H as (ns & st1 & _ & H).
  apply bind_inv in H as (ns' & st2 & _ & H).
  apply bind_inv in H as (s2 & st3 & Hg & H).
  apply bind_inv in H as ([] & st4 & Hb & H).
  apply bind_inv in H as ([] & st5 & Hx & H).
  inversion Hg; subst; clear Hg.
  inversion Hb; subst; clear Hb.
  inversion Hx; subst; clear Hx.
  inversion H; subst; clear H.
  cbn. apply neq_bool_xorb.
Qed.

(** *** Tiling and trimming (C3) *)

(** The end of [build_section] on a placed unit cell [g]: [g] is tiled
    [(L + 1) // 2] times along [long_ax]; when [(L + 1) % 2 == 0] the entry
    [cell[0, 0]] is scaled by [L / (L + 1)] and the atoms from
    [cell[long_ax, long_ax] - 0.01] on are removed. *)
Lemma tile_and_cut_spec (g : G) (st : st_) :
  let s := self st in
  let tiled := g_tile g ((L s + 1) / 2) (long_ax s) in
  let shrunk :=
    g_set_cell tiled Ax0 Ax0
      (fmul (g_cell tiled Ax0 Ax0) (fdiv (of_int (L s)) (of_int (L s + 1)))) in
  tile_and_cut g st
  = (if (L s + 1) mod 2 =? 0
     then if L s + 1 =? 0
          then Raised ZeroDivisionError MsgZeroDivision
          else Ok (g_remove_from shrunk (long_ax s)
                     (fsub (g_cell shrunk (long_ax s) (long_ax s)) (of_lit (1 # 100))))
     else Ok tiled,
     st).
Proof.
  cbv zeta. unfold tile_and_cut, int_truediv, cut_last_of, tiles_of. mred.
  destruct ((L (self st) + 1) mod 2 =? 0); [|reflexivity].
  destruct (L (self st) + 1 =? 0); reflexivity.
Qed.

Lemma place_first_returns (st : st_) :
  exists g st', place_unit_cell None st = (Ok g, st').
Proof.
  unfold place_unit_cell. mbind.
  destruct (invert_first (self st)); eexists _, _; reflexivity.
Qed.

(** A first section whose [L] is not [-1] is always built. *)
Lemma build_section_first_returns (st : st_) :
  L (self st) + 1 <> 0 ->
  exists g st', build_section None st = (Ok g, st').
Proof.
  intros HL.
  destruct (place_first_returns st) as (g & st1 & Hp).
  assert (HL1 : L (self st1) = L (self st))
    by (apply static_L; exact (framed_place_unit_cell _ _ Hp)).
  unfold build_section. rewrite (bind_ok _ _ _ Hp).
  pose proof (tile_and_cut_spec g st1) as Ht. cbv zeta in Ht. rewrite HL1 in Ht.
  apply Z.eqb_neq in HL. rewrite HL in Ht.
  destruct ((L (self st) + 1) mod 2 =? 0); rewrite (bind_ok _ _ _ Ht);
    eexists _, _; reflexivity.
Qed.

(** For an armchair section ([long_ax = 0]) the scaled entry is the
    longitudinal one: the returned geometry is the placed cell tiled, and
    when trimmed its longitudinal cell vector is shrunk by [L / (L + 1)] and
    the atoms beyond the new boundary, less the margin, are removed. *)
Lemma build_section_armchair_tiles (previous : option section) (st st' : st_) (g : G) :
  long_ax (self st) = Ax0 ->
  build_section previous st = (Ok g, st') ->
  exists placed,
    let l := L (self st) in
    let tiled := g_tile placed ((l + 1) / 2) Ax0 in
    let shrunk :=
      g_set_cell tiled Ax0 Ax0 (fmul (g_cell tiled Ax0 Ax0) (fdiv (of_int l) (of_int (l + 1)))) in
    g = if (l + 1) mod 2 =? 0
        then g_remove_from shrunk Ax0 (fsub (g_cell shrunk Ax0 Ax0) (of_lit (1 # 100)))
        else tiled.
Proof.
  intros Hax H. unfold build_section in H.
  apply bind_inv in H as (placed & st1 & Hpl & H).
  assert (Hfr := framed_place_unit_cell _ _ Hpl).
  apply bind_inv in H as (g1 & st2 & Htc & H).
  apply bind_inv in H as (s2 & st3 & _ & H).
  apply bind_inv in H as ([] & st4 & _ & H).
  apply bind_inv in H as ([] & st5 & _ & H).
  inversion H; subst; clear H.
  exists placed. cbv zeta.
  rewrite tile_and_cut_spec in Htc. cbv zeta in Htc.
  rewrite (static_L Hfr), (static_long_ax Hfr), Hax in Htc.
  destruct ((L (self st) + 1) mod 2 =? 0).
  - destruct (L (self st) + 1 =? 0); inversion Htc; reflexivity.
  - inversion Htc; reflexivity.
Qed.

(** *** The width and kind checks (C8, C10) *)

(** C8, amended.  [nanoribbon] fails with the input error exactly on a width
    that is not an integer.  An integer width below 1, so 0 and every
    negative integer, is not rejected: it is clamped to 1, and with a
    recognised kind (in any case) the call returns the ribbon of width 1. *)
Theorem nanoribbon_width_check (bond : R) (atoms : At) (width : pyvalue) (kind : string) :
  (is_Integral width = false ->
   nanoribbon bond atoms width kind = Raised ValueError (MsgWidth width))
  /\ (forall z, z <= 0 ->
        nanoribbon bond atoms (PyInt z) kind = nanoribbon bond atoms (PyInt 1) kind)
  /\ (forall z, str_in (lower kind) ["armchair"; "zigzag"] = true ->
        is_ok (nanoribbon bond atoms (PyInt z) kind) = true).
Proof.
  split; [|split].
  - destruct width; cbn; intros H; try discriminate; reflexivity.
  - intros z Hz. unfold nanoribbon.
    replace (Z.max z 1) with (Z.max 1 1) by lia. reflexivity.
  - intros z Hk. apply str_in_two in Hk. unfold nanoribbon.
    destruct Hk as [Hk|Hk]; rewrite Hk; reflexivity.
Qed.

(** C10.  A section whose kind is any string other than exactly
    ["armchair"] or ["zigzag"] is not constructed: [__post_init__] raises, and
    what it raises is the [NameError] of the undefined name [kind] in the
    message, not the [ValueError] the message was written for.  That
    includes ["Armchair"], which [nanoribbon] accepts. *)
Theorem post_init_unknown_kind (a : section_args) :
  arg_kind a <> "armchair" -> arg_kind a <> "zigzag" ->
  __post_init__ a = Raised NameError (MsgNameNotDefined "kind")
  /\ forall bond atoms z,
       is_ok (nanoribbon bond atoms (PyInt z) "Armchair") = true
       /\ "Armchair" <> "armchair" /\ "Armchair" <> "zigzag".
Proof.
  intros Ha Hz. split.
  - unfold __post_init__.
    apply String.eqb_neq in Ha, Hz. rewrite Ha, Hz. reflexivity.
  - intros bond atoms z. split; [reflexivity | split; discriminate].
Qed.

(** *** Quantized shifts (C5) *)

(** Construction with [shift_quantum] set overwrites [on_lone_atom]. *)
Lemma post_init_quantum (a : section_args) (s : section) :
  __post_init__ a = Ok s ->
  shift_quantum s = arg_shift_quantum a
  /\ (arg_shift_quantum a = true -> on_lone_atom s = Raise)
  /\ (arg_shift_quantum a = false -> on_lone_atom s = arg_on_lone_atom a).
Proof.
  unfold __post_init__.
  destruct (arg_kind a =? "armchair")%string;
    [|destruct (arg_kind a =? "zigzag")%string]; cbn [obind eval_name];
    try (cbn; discriminate);
    destruct (nanoribbon _ _ _ _); cbn [obind]; try discriminate;
    destruct (arg_W a); try discriminate;
    intros H; inversion H; subst; cbn;
    destruct (arg_shift_quantum a); repeat split; congruence.
Qed.

(** In quantized mode with the policy "raise": the shift is the element of
    the valid set at [aligned_shift + shift], and an index outside the set
    is the fatal lone-atom error with the valid index range. *)
Lemma resolve_shift_quantum (s prev : section) (vs : list Z) (sh a : Z) (ws : list msg) :
  shift_quantum s = true -> on_lone_atom s = Raise ->
  aligned_shift_of vs (mk_state s ws) = (Ok a, mk_state s ws) ->
  let n := Z.of_nat (List.length vs) in
  resolve_shift sh prev vs (mk_state s ws)
  = if (0 <=? a + sh) && (a + sh <? n)
    then (match nth_error vs (Z.to_nat (a + sh)) with
          | Some v => Ok v
          | None => Raised IndexError MsgIndex
          end, mk_state s ws)
    else (Raised PolicyError (MsgJunction prev s (ShiftBetween (- a) (n - a - 1) sh)),
          mk_state s ws).
Proof.
  intros Hq Hp Ha n. unfold resolve_shift. mbind. rewrite Hq.
  rewrite (bind_ok _ _ _ Ha). subst n.
  unfold np_index.
  destruct (Z.leb_spec 0 (a + sh)) as [H0|H0];
    destruct (Z.ltb_spec (a + sh) (Z.of_nat (List.length vs))) as [H1|H1];
    cbn [andb].
  - replace (a + sh <? 0) with false by (symmetry; apply Z.ltb_ge; lia).
    replace (Z.of_nat (List.length vs) <=? a + sh) with false
      by (symmetry; apply Z.leb_gt; lia).
    cbn [orb when]. mbind.
    destruct (nth_error vs (Z.to_nat (a + sh))); reflexivity.
  - replace (Z.of_nat (List.length vs) <=? a + sh) with true
      by (symmetry; apply Z.leb_le; lia).
    rewrite orb_true_r. mred. rewrite Hp. reflexivity.
  - replace (a + sh <? 0) with true by (symmetry; apply Z.ltb_lt; lia).
    mred. rewrite Hp. reflexivity.
  - replace (a + sh <? 0) with true by (symmetry; apply Z.ltb_lt; lia).
    mred. rewrite Hp. reflexivity.
Qed.

(** On an empty valid set the index of quantized mode does not exist:
    numpy's [argmin] raises before any junction error is built. *)
Lemma resolve_shift_quantum_empty (s prev : section) (sh : Z) (ws : list msg) :
  shift_quantum s = true ->
  resolve_shift sh prev [] (mk_state s ws)
  = (Raised ValueError MsgArgminEmpty, mk_state s ws).
Proof. intros Hq. unfold resolve_shift. mbind. now rewrite Hq. Qed.

(** **** The sorted array and the index of the aligned shift *)

Lemma insert_sorted_in (x y : Z) (l : list Z) :
  In y (insert_sorted x l) <-> y = x \/ In y l.
Proof.
  induction l as [|z l IH]; cbn.
  - intuition auto.
  - destruct (x <=? z); cbn; [intuition auto|]. rewrite IH. intuition auto.
Qed.

Lemma np_sort_in (y : Z) (l : list Z) : In y (np_sort l) <-> In y l.
Proof.
  induction l as [|x l IH]; cbn; [reflexivity|].
  rewrite insert_sorted_in, IH. intuition auto.
Qed.

Lemma insert_sorted_sorted (x : Z) (l : list Z) :
  StronglySorted Z.le l -> StronglySorted Z.le (insert_sorted x l).
Proof.
  induction 1 as [|z l Hs IH Hall]; cbn.
  - repeat constructor.
  - destruct (Z.leb_spec x z) as [Hxz|Hxz].
    + constructor; [now constructor|].
      constructor; [exact Hxz|].
      rewrite Forall_forall in *. intros y Hy. specialize (Hall y Hy). lia.
    + constructor; [exact IH|].
      rewrite Forall_forall in *. intros y Hy.
      apply insert_sorted_in in Hy as [->|Hy]; [lia | auto].
Qed.

Lemma np_sort_sorted (l : list Z) : StronglySorted Z.le (np_sort l).
Proof.
  induction l as [|x l IH]; cbn; [constructor | now apply insert_sorted_sorted].
Qed.

Lemma sorted_nth_le (l : list Z) (p q : nat) :
  StronglySorted Z.le l -> (p <= q)%nat -> (q < List.length l)%nat ->
  nth p l 0 <= nth q l 0.
Proof.
  intros Hs. revert p q. induction Hs as [|z l Hs IH Hall]; intros p q Hpq Hq.
  - cbn in Hq. lia.
  - destruct q as [|q]; [replace p with 0%nat by lia; lia|].
    cbn in Hq. destruct p as [|p].
    + cbn. rewrite Forall_forall in Hall. apply Hall, nth_In. lia.
    + cbn. apply IH; lia.
Qed.

(** [argmin_from]: either the running best stays, or the result is the
    first position of the minimum of [l], which is below the running best. *)
Lemma argmin_from_spec (l : list Z) : forall best besti i,
  let j := argmin_from best besti l i in
  (j = besti /\ forall y, In y l -> best <= y)
  \/ exists k, (k < List.length l)%nat /\ j = i + Z.of_nat k
               /\ nth k l 0 < best
               /\ (forall y, In y l -> nth k l 0 <= y)
               /\ (forall k', (k' < k)%nat -> nth k l 0 < nth k' l 0).
Proof.
  induction l as [|y l IH]; intros best besti i; cbn -[Z.of_nat].
  - left. split; [reflexivity|]. intros y [].
  - destruct (Z.ltb_spec y best) as [Hy|Hy].
    + right. destruct (IH y i (i + 1)) as [[Hj Hall]|(k & Hk & Hj & Hlt & Hall & Hfirst)].
      * exists 0%nat. cbn -[Z.of_nat]. repeat split; try lia.
        intros z [<-|Hz]; [lia | auto].
      * exists (S k). cbn -[Z.of_nat]. repeat split; try lia.
        -- intros z [<-|Hz]; [lia | auto].
        -- intros [|k'] Hk'; [lia | apply Hfirst; lia].
    + destruct (IH best besti (i + 1)) as [[Hj Hall]|(k & Hk & Hj & Hlt & Hall & Hfirst)].
      * left. split; [exact Hj|]. intros z [<-|Hz]; [lia | auto].
      * right. exists (S k). cbn -[Z.of_nat]. repeat split; try lia.
        -- intros z [<-|Hz]; [lia | auto].
        -- intros [|k'] Hk'; [lia | apply Hfirst; lia].
Qed.

Lemma np_argmin_spec (l : list Z) :
  l <> [] ->
  exists k, (k < List.length l)%nat /\ np_argmin l = Some (Z.of_nat k)
            /\ (forall y, In y l -> nth k l 0 <= y)
            /\ (forall k', (k' < k)%nat -> nth k l 0 < nth k' l 0).
Proof.
  destruct l as [|y l]; [congruence|]. intros _. cbn [np_argmin].
  destruct (argmin_from_spec l y 0 1) as [[Hj Hall]|(k & Hk & Hj & Hlt & Hall & Hfirst)].
  - exists 0%nat. cbn -[Z.of_nat]. repeat split; try lia.
    + now rewrite Hj.
    + intros z [<-|Hz]; [lia | auto].
  - exists (S k). cbn -[Z.of_nat]. repeat split; try lia.
    + rewrite Hj. f_equal. lia.
    + intros z [<-|Hz]; [lia | auto].
    + intros [|k'] Hk'; [lia | apply Hfirst; lia].
Qed.

Lemma np_where_eq_spec (x : Z) (l : list Z) : forall i,
  In x l ->
  exists k rest, (k < List.length l)%nat
                 /\ np_where_eq x l i = (i + Z.of_nat k) :: rest
                 /\ nth k l 0 = x
                 /\ forall k', (k' < k)%nat -> nth k' l 0 <> x.
Proof.
  induction l as [|y l IH]; intros i Hin; [destruct Hin|].
  cbn -[Z.of_nat]. destruct (Z.eqb_spec y x) as [->|Hne].
  - exists 0%nat, (np_where_eq x l (i + 1)). cbn -[Z.of_nat].
    repeat split; try lia. f_equal. lia.
  - destruct Hin as [Hin|Hin]; [congruence|].
    destruct (IH (i + 1) Hin) as (k & rest & Hk & Hw & Hn & Hfirst).
    exists (S k), rest. cbn -[Z.of_nat]. repeat split; try lia.
    + rewrite Hw. f_equal. lia.
    + intros [|k'] Hk'; [exact Hne | apply Hfirst; lia].
Qed.

Lemma np_mem_In (x : Z) (l : list Z) : np_mem x l = true <-> In x l.
Proof.
  unfold np_mem. rewrite existsb_exists. split.
  - intros (y & Hy & E). apply Z.eqb_eq in E. now subst.
  - intros H. exists x. split; [exact H | apply Z.eqb_refl].
Qed.

(** The index of quantized mode, on a sorted non-empty valid set: the
    position of the shift 0 when it is there, otherwise the position of the
    shift nearest to zero, the positive one of two at the same distance. *)
Lemma aligned_shift_spec (vs : list Z) (st : st_) :
  StronglySorted Z.le vs -> vs <> [] ->
  exists k v,
    (k < List.length vs)%nat
    /\ aligned_shift_of vs st = (Ok (Z.of_nat k), st)
    /\ nth_error vs k = Some v
    /\ (In 0 vs -> v = 0 /\ forall k', (k' < k)%nat -> nth k' vs 0 <> 0)
    /\ (~ In 0 vs ->
        forall u, In u vs -> Z.abs v <= Z.abs u /\ (Z.abs u = Z.abs v -> u <= v)).
Proof.
  intros Hs Hne. unfold aligned_shift_of.
  destruct (np_mem 0 vs) eqn:Hm.
  - apply np_mem_In in Hm.
    destruct (np_where_eq_spec 0 vs 0 Hm) as (k & rest & Hk & Hw & Hn & Hfirst).
    exists k, 0. rewrite Hw. cbn -[Z.of_nat].
    split; [exact Hk|]. split; [reflexivity|].
    split; [rewrite <- Hn; now apply nth_error_nth'|].
    split; [auto | intros Hn0; contradiction].
  - assert (Hnot : ~ In 0 vs).
    { intros H. apply np_mem_In in H. congruence. }
    set (n := List.length vs).
    assert (Hlen : List.length (np_abs (np_flip vs)) = n)
      by (unfold np_abs, np_flip; now rewrite length_map, length_rev).
    destruct (np_argmin_spec (l := np_abs (np_flip vs))) as (j & Hj & Ha & Hmin & Hfirst).
    { intros E. apply (f_equal (@List.length Z)) in E. rewrite Hlen in E.
      destruct vs; [congruence | discriminate]. }
    rewrite Hlen in Hj. rewrite Ha.
    assert (Hnth : forall i, (i < n)%nat ->
               nth i (np_abs (np_flip vs)) 0 = Z.abs (nth (n - S i) vs 0)).
    { intros i Hi. unfold np_abs, np_flip.
      change 0 with (Z.abs 0) at 1. rewrite map_nth. f_equal.
      now apply rev_nth. }
    exists (n - S j)%nat, (nth (n - S j) vs 0).
    split; [lia|].
    split; [unfold ret; do 2 f_equal; fold n; lia|].
    split; [apply nth_error_nth'; fold n; lia|].
    split; [intros H; contradiction|].
    intros _ u Hu.
    destruct (In_nth vs u 0 Hu) as (p & Hp & <-). fold n in Hp.
    split.
    + rewrite <- (Hnth j Hj). apply Hmin.
      replace p with (n - S (n - S p))%nat by lia.
      rewrite <- Hnth by lia. apply nth_In. rewrite Hlen. lia.
    + intros Habs.
      destruct (Nat.le_gt_cases p (n - S j)) as [Hle|Hgt].
      * apply sorted_nth_le; auto. fold n. lia.
      * exfalso.
        assert (Hlt := Hfirst (n - S p)%nat ltac:(lia)).
        rewrite (Hnth j Hj), (Hnth (n - S p)%nat ltac:(lia)) in Hlt.
        replace (n - S (n - S p))%nat with p in Hlt by lia. lia.
Qed.

Lemma valid_shifts_sorted (prev : section) (al : string) (st st' : st_) (vs : list Z) :
  valid_shifts_of prev al st = (Ok vs, st') -> StronglySorted Z.le vs.
Proof.
  intros H. unfold valid_shifts_of in H.
  apply bind_inv in H as (s0 & st0 & _ & H).
  apply bind_inv in H as (v & st1 & _ & H).
  inversion H. apply np_sort_sorted.
Qed.

(** X18.  Quantized mode as a whole, on a junction that passes the first
    check and has a non-empty valid set [vs]: with [k] the index of the
    aligned shift (the shift 0 when valid, else the valid shift nearest to
    zero, the positive one of a tie),
    the result is [vs[k + shift]], and a [k + shift] outside [vs] is the
    fatal lone-atom error giving the index range [-k .. len - k - 1]. *)
Lemma parse_shift_quantized (s prev : section) (al : string) (sh : Z) (ws : list msg)
      (vs : list Z) :
  shift_quantum s = true -> on_lone_atom s = Raise ->
  (W prev mod 2 =? 1) && (W s <? W prev) && snd (_open_borders prev) = false ->
  valid_shifts_of prev al (mk_state s ws) = (Ok vs, mk_state s ws) ->
  vs <> [] ->
  let n := Z.of_nat (List.length vs) in
  exists k v,
    (k < List.length vs)%nat /\ nth_error vs k = Some v
    /\ (In 0 vs -> v = 0)
    /\ (~ In 0 vs ->
        forall u, In u vs -> Z.abs v <= Z.abs u /\ (Z.abs u = Z.abs v -> u <= v))
    /\ _parse_shift sh prev al (mk_state s ws)
       = if (0 <=? Z.of_nat k + sh) && (Z.of_nat k + sh <? n)
         then (match nth_error vs (Z.to_nat (Z.of_nat k + sh)) with
               | Some r => Ok r
               | None => Raised IndexError MsgIndex
               end, mk_state s ws)
         else (Raised PolicyError
                 (MsgJunction prev s
                    (ShiftBetween (- Z.of_nat k) (n - Z.of_nat k - 1) sh)),
               mk_state s ws).
Proof.
  intros Hq Hp Hchk Hvs Hne n.
  destruct (aligned_shift_spec (mk_state s ws) (valid_shifts_sorted _ _ _ Hvs) Hne)
    as (k & v & Hk & Ha & Hv & H0 & Hnear).
  exists k, v. split; [exact Hk|]. split; [exact Hv|].
  split; [intros H; now apply H0|]. split; [exact Hnear|].
  unfold _parse_shift. mbind. rewrite Hp. cbn [policy_eqb].
  rewrite Hchk. cbn [when]. mbind. rewrite (bind_ok _ _ _ Hvs).
  now apply resolve_shift_quantum.
Qed.

(** *** Vacuum around a new section (C9) *)

(** [add_section] onto an existing composite, once the section is built:
    the test for the upper side reads [cell[1, 1]], the expansion
    [cell[trans_ax, trans_ax]]. *)
Lemma add_section_spec (geometry0 : G) (previous : list section) (st st1 : st_)
      (new_section : G) :
  build_section (if 0 <? Z.of_nat (List.length previous)
                 then nth_error previous (List.length previous - 1)
                 else None) st
  = (Ok new_section, st1) ->
  let s := self st1 in
  let t := trans_ax s in
  let new_min := a_min (g_xyz new_section) t in
  let new_max := a_max (g_xyz new_section) t in
  let cell_offset := fadd (fneg new_min) (of_int 14) in
  let move := vset np_zeros3 t cell_offset in
  let below := flt new_min (of_int 0) in
  let geometry1 :=
    if below then g_move (g_add_vacuum geometry0 cell_offset t) move else geometry0 in
  let new_section1 := if below then g_move new_section move else new_section in
  let geometry2 :=
    if flt (g_cell geometry1 Ax1 Ax1) new_max
    then g_add_vacuum geometry1
           (fadd (fsub new_max (g_cell geometry1 t t)) (of_int 14)) t
    else geometry1 in
  exists st',
    add_section (Some geometry0) previous st
    = (Ok (g_append geometry2 new_section1 (long_ax s)), st')
    /\ xyz (self st') = Some (g_xyz new_section1).
Proof.
  intros Hb. cbv zeta. unfold add_section. rewrite (bind_ok _ _ _ Hb). mbind.
  destruct (flt (a_min (g_xyz new_section) (trans_ax (self st1))) (of_int 0));
    eexists; split; reflexivity.
Qed.

(** With [trans_ax = 1] (armchair) the test and the expansion read the same
    entry: the composite's transverse cell length. *)
Lemma add_section_armchair (geometry0 : G) (previous : list section) (st st1 : st_)
      (new_section : G) :
  build_section (if 0 <? Z.of_nat (List.length previous)
                 then nth_error previous (List.length previous - 1)
                 else None) st
  = (Ok new_section, st1) ->
  trans_ax (self st1) = Ax1 ->
  let s := self st1 in
  let new_min := a_min (g_xyz new_section) Ax1 in
  let new_max := a_max (g_xyz new_section) Ax1 in
  let cell_offset := fadd (fneg new_min) (of_int 14) in
  let move := vset np_zeros3 Ax1 cell_offset in
  let below := flt new_min (of_int 0) in
  let geometry1 :=
    if below then g_move (g_add_vacuum geometry0 cell_offset Ax1) move else geometry0 in
  let new_section1 := if below then g_move new_section move else new_section in
  let geometry2 :=
    if flt (g_cell geometry1 Ax1 Ax1) new_max
    then g_add_vacuum geometry1
           (fadd (fsub new_max (g_cell geometry1 Ax1 Ax1)) (of_int 14)) Ax1
    else geometry1 in
  exists st',
    add_section (Some geometry0) previous st
    = (Ok (g_append geometry2 new_section1 (long_ax s)), st').
Proof.
  intros Hb Ht. cbv zeta.
  destruct (@add_section_spec geometry0 previous st st1 new_section Hb) as (st' & H & _).
  cbv zeta in H. rewrite Ht in H. now exists st'.
Qed.

(** *** Further properties of [nanoribbon] and the constructors *)

Lemma lower_ascii_idem (c : ascii) : lower_ascii (lower_ascii c) = lower_ascii c.
Proof.
  destruct c as [[] [] [] [] [] [] [] []]; reflexivity.
Qed.

Lemma lower_idem (s : string) : lower (lower s) = lower s.
Proof.
  induction s as [|c s IH]; cbn; [reflexivity|].
  now rewrite lower_ascii_idem, IH.
Qed.

Lemma str_in_two_false (x a b : string) :
  str_in x [a; b] = false -> x <> a /\ x <> b.
Proof.
  unfold str_in. cbn [existsb]. rewrite orb_false_r, orb_false_iff, !String.eqb_neq.
  tauto.
Qed.

(** X1.  For an integer width, [nanoribbon] returns exactly when the kind,
    lower-cased, is ["armchair"] or ["zigzag"]; for any other kind it raises
    the [ValueError] whose message carries the lower-cased kind.  A width
    that is not an integer is reported first, whatever the kind. *)
Theorem nanoribbon_kind_check (bond : R) (atoms : At) (kind : string) :
  (forall z, is_ok (nanoribbon bond atoms (PyInt z) kind)
             = str_in (lower kind) ["armchair"; "zigzag"])
  /\ (forall z, str_in (lower kind) ["armchair"; "zigzag"] = false ->
        nanoribbon bond atoms (PyInt z) kind = Raised ValueError (MsgKind (lower kind)))
  /\ (forall width, is_Integral width = false ->
        nanoribbon bond atoms width kind = Raised ValueError (MsgWidth width)).
Proof.
  split; [|split].
  - intros z. unfold nanoribbon, str_in. cbn [existsb].
    destruct (lower kind =? "armchair")%string; [reflexivity|].
    destruct (lower kind =? "zigzag")%string; reflexivity.
  - intros z Hk. apply str_in_two_false in Hk as [Ha Hz].
    apply String.eqb_neq in Ha, Hz. unfold nanoribbon. now rewrite Ha, Hz.
  - intros width Hw. destruct width; try discriminate; reflexivity.
Qed.

(** X2.  [nanoribbon] reads the kind without regard to case: a kind and its
    lower-cased form give the same result, ribbon or error. *)
Theorem nanoribbon_kind_case_insensitive (bond : R) (atoms : At) (width : pyvalue)
        (kind : string) :
  nanoribbon bond atoms width kind = nanoribbon bond atoms width (lower kind).
Proof.
  unfold nanoribbon. destruct width; try reflexivity.
  now rewrite lower_idem.
Qed.

(** X3.  A section is constructed exactly when its kind is literally
    ["armchair"] or ["zigzag"] and its width is an integer.  The constructed
    section has distinct longitudinal and transverse axes fixed by the kind,
    both borders closed, no coordinates yet, the policy "raise" in
    quantized mode and the configured one otherwise, and as geometry the
    ribbon [nanoribbon] returns for its parameters. *)
Theorem post_init_succeeds_iff (a : section_args) :
  (is_ok (__post_init__ a) = true
   <-> (arg_kind a = "armchair" \/ arg_kind a = "zigzag")
       /\ is_Integral (arg_W a) = true)
  /\ forall s, __post_init__ a = Ok s ->
       arg_W a = PyInt (W s)
       /\ kind s = arg_kind a /\ L s = arg_L a /\ shift s = arg_shift a
       /\ align s = arg_align a
       /\ (long_ax s, trans_ax s)
          = (if (kind s =? "armchair")%string then (Ax0, Ax1) else (Ax1, Ax0))
       /\ long_ax s <> trans_ax s
       /\ _open_borders s = (false, false)
       /\ xyz s = None
       /\ on_lone_atom s = (if arg_shift_quantum a then Raise else arg_on_lone_atom a)
       /\ nanoribbon (bond s) (atoms s) (PyInt (W s)) (kind s) = Ok (geometry s).
Proof.
  split.
  - unfold __post_init__. split.
    + destruct (String.eqb_spec (arg_kind a) "armchair") as [Ha|Ha];
        [|destruct (String.eqb_spec (arg_kind a) "zigzag") as [Hz|Hz]];
        cbn [obind eval_name]; try (cbn; discriminate);
        (destruct (arg_W a) eqn:EW; [|cbn; discriminate..]);
        intros _; (split; [tauto | reflexivity]).
    + intros [[Hk|Hk] HW]; rewrite Hk; cbn [String.eqb Ascii.eqb Bool.eqb obind];
        destruct (arg_W a); try discriminate;
        unfold nanoribbon; reflexivity.
  - intros s H. unfold __post_init__ in H.
    destruct (String.eqb_spec (arg_kind a) "armchair") as [Ha|Ha];
      [|destruct (String.eqb_spec (arg_kind a) "zigzag") as [Hz|Hz]];
      cbn [obind eval_name] in H; try (cbn in H; discriminate);
      destruct (nanoribbon (arg_bond a) (arg_atoms a) (arg_W a) (arg_kind a)) eqn:En;
      cbn [obind] in H; try discriminate;
      destruct (arg_W a) eqn:EW; try discriminate;
      inversion H; subst; cbn;
      rewrite ?Ha, ?Hz; cbn;
      repeat split; try reflexivity; try discriminate;
      rewrite ?Ha, ?Hz in En; exact En.
Qed.

(** X4.  [agnr] and [zgnr] fail only on a width that is not an integer:
    their kind is fixed and recognised.  They are [nanoribbon] with that
    kind, and with the carbon atom of radius [1.01 * bond] when no atom is
    given. *)
Theorem agnr_zgnr_only_fail_on_width (Atom : Z -> R -> At) (width : pyvalue) (bond : R)
        (atoms : option At) :
  let atoms' :=
    match atoms with
    | Some a => a
    | None => Atom 6 (fmul bond (of_lit (101 # 100)))
    end in
  agnr Atom width bond atoms = nanoribbon bond atoms' width "armchair"
  /\ zgnr Atom width bond atoms = nanoribbon bond atoms' width "zigzag"
  /\ is_ok (agnr Atom width bond atoms) = is_Integral width
  /\ is_ok (zgnr Atom width bond atoms) = is_Integral width.
Proof.
  cbv zeta. unfold agnr, zgnr, graphene_nanoribbon.
  repeat split; destruct width; reflexivity.
Qed.

(** *** What the junction methods leave untouched *)

Local Abbreviation stateless c := (@stateless R At G A _ c).
Local Abbreviation readonly c := (@readonly R At G A _ c).

Lemma stateless_ret {T} (v : T) : stateless (ret v).
Proof. intros st r st' H. now inversion H. Qed.

Lemma stateless_raise {T} e m : stateless (raise (T := T) e m).
Proof. intros st r st' H. now inversion H. Qed.

Lemma stateless_get_self : stateless get_self.
Proof. intros st r st' H. now inversion H. Qed.

Lemma stateless_bind {T U} (c : Mon T) (k : T -> Mon U) :
  stateless c -> (forall v, stateless (k v)) -> stateless (bind c k).
Proof.
  intros Hc Hk st r st' H. unfold bind in H.
  destruct (c st) as [[v|e m] st1] eqn:E.
  - rewrite (Hk v _ _ _ H). exact (Hc _ _ _ E).
  - inversion H; subst. exact (Hc _ _ _ E).
Qed.

Lemma stateless_when b (c : Mon unit) : stateless c -> stateless (when b c).
Proof. intros Hc. destruct b; [exact Hc | apply stateless_ret]. Qed.

(** A junction error of fixed severity "raise", or of an exception class,
    changes nothing: it raises. *)
Lemma stateless_junction_raise (prev : section) d :
  stateless (_junction_error (WPolicy Raise) prev d).
Proof. intros st r st' H. now inversion H. Qed.

Lemma stateless_junction_class c (prev : section) d :
  stateless (_junction_error (WClass c) prev d).
Proof. intros st r st' H. now inversion H. Qed.

Ltac stateless_step :=
  match goal with
  | |- stateless (bind _ _) => apply stateless_bind; [|intros ?]
  | |- stateless (ret _) => apply stateless_ret
  | |- stateless (raise _ _) => apply stateless_raise
  | |- stateless get_self => apply stateless_get_self
  | |- stateless (when _ _) => apply stateless_when
  | |- stateless (_junction_error (WPolicy Raise) _ _) => apply stateless_junction_raise
  | |- stateless (_junction_error (WClass _) _ _) => apply stateless_junction_class
  | |- stateless (if ?b then _ else _) => destruct b
  | |- stateless (match ?x with _ => _ end) => destruct x
  | |- stateless (let '(_, _) := ?x in _) => destruct x
  end.

Ltac stateless_auto := repeat stateless_step.

Lemma stateless_first_char str : stateless (first_char str).
Proof. unfold first_char. stateless_auto. Qed.


Lemma stateless_dict_get d k : stateless (dict_get d k).
Proof. unfold dict_get. stateless_auto. Qed.

Lemma stateless_shift_unit_cell (g : G) : stateless (_shift_unit_cell g).
Proof. unfold _shift_unit_cell. stateless_auto. Qed.

Lemma stateless_offset_from_center al (prev : section) :
  stateless (_offset_from_center al prev).
Proof. unfold _offset_from_center. stateless_auto; apply stateless_first_char. Qed.


Lemma stateless_valid_shifts_of (prev : section) al : stateless (valid_shifts_of prev al).
Proof.
  unfold valid_shifts_of. stateless_auto;
    first [apply stateless_dict_get | apply stateless_offset_from_center
          | apply stateless_first_char].
Qed.

Lemma stateless_aligned_shift_of vs : stateless (aligned_shift_of vs).
Proof. unfold aligned_shift_of. stateless_auto. Qed.

Lemma stateless_tile_and_cut (g : G) : stateless (tile_and_cut g).
Proof.
  unfold tile_and_cut, int_truediv. stateless_auto.
Qed.

Lemma readonly_of_stateless {T} (c : Mon T) : stateless c -> readonly c.
Proof. intros H st r st' E. now rewrite (H _ _ _ E). Qed.

Lemma readonly_bind {T U} (c : Mon T) (k : T -> Mon U) :
  readonly c -> (forall v, readonly (k v)) -> readonly (bind c k).
Proof.
  intros Hc Hk st r st' H. unfold bind in H.
  destruct (c st) as [[v|e m] st1] eqn:E.
  - rewrite (Hk v _ _ _ H). exact (Hc _ _ _ E).
  - inversion H; subst. exact (Hc _ _ _ E).
Qed.

Lemma readonly_junction_error what (prev : section) d :
  readonly (_junction_error what prev d).
Proof.
  intros st r st' H. destruct what as [[| |]|c]; now inversion H.
Qed.

Lemma readonly_resolve_shift sh (prev : section) vs : readonly (resolve_shift sh prev vs).
Proof.
  unfold resolve_shift.
  apply readonly_bind; [apply readonly_of_stateless, stateless_get_self|]. intros s.
  destruct (shift_quantum s).
  - apply readonly_bind; [apply readonly_of_stateless, stateless_aligned_shift_of|].
    intros a. apply readonly_bind.
    + destruct (_ || _); [apply readonly_junction_error
                         | apply readonly_of_stateless, stateless_ret].
    + intros _. destruct (np_index _ _);
        apply readonly_of_stateless; [apply stateless_ret | apply stateless_raise].
  - apply readonly_bind.
    + destruct (negb _); [apply readonly_junction_error
                         | apply readonly_of_stateless, stateless_ret].
    + intros _. apply readonly_of_stateless, stateless_ret.
Qed.

Lemma readonly_parse_shift sh (prev : section) al : readonly (_parse_shift sh prev al).
Proof.
  unfold _parse_shift.
  apply readonly_bind; [apply readonly_of_stateless, stateless_get_self|]. intros s.
  destruct (policy_eqb _ _); [apply readonly_of_stateless, stateless_ret|].
  apply readonly_bind.
  { destruct (_ && _); [apply readonly_junction_error
                       | apply readonly_of_stateless, stateless_ret]. }
  intros _. apply readonly_bind;
    [apply readonly_of_stateless, stateless_valid_shifts_of|].
  intros vs. apply readonly_resolve_shift.
Qed.

(** *** When [_align_check] returns *)

Lemma str_in_app (x : string) (l1 l2 : list string) :
  str_in x (l1 ++ l2) = str_in x l1 || str_in x l2.
Proof. unfold str_in. apply existsb_app. Qed.

(** The alignment after the "auto" rule, as the code computes it. *)
Lemma align_check_unfold (s prev : section) (g : G) (pxyz : A) (ws : list msg) :
  xyz prev = Some pxyz ->
  let st := mk_state s ws in
  let al := lower (align s) in
  let d := W s - W prev in
  let al' :=
    if str_in al ["a"; "auto"] then
      if (W s mod 2 =? 1) && (d mod 2 =? 0) then "c"
      else if W prev mod 2 =? 0 then (if snd (_open_borders prev) then "t" else "b")
      else "b"
    else al in
  _align_check (Some prev) g st
  = if str_in al' ["c"; "center"] then
      if d mod 2 =? 1
      then (Raised PolicyError (MsgJunction prev s CenterParity), st)
      else (Ok (al', fsub (a_mean pxyz (trans_ax s)) (a_mean (g_xyz g) (trans_ax s)),
                Bool.eqb (negb (snd (_open_borders prev))) (d mod 4 =? 0)), st)
    else if str_in al' ["t"; "top"] then
      (Ok (al', fsub (a_max pxyz (trans_ax s)) (a_max (g_xyz g) (trans_ax s)),
           negb (snd (_open_borders prev))), st)
    else if str_in al' ["b"; "bottom"] then
      (Ok (al', fsub (a_min pxyz (trans_ax s)) (a_min (g_xyz g) (trans_ax s)),
           Bool.eqb (Bool.eqb (W prev mod 2 =? 1) (snd (_open_borders prev)))
                    (W s mod 2 =? 0)), st)
    else (Raised ValueError (MsgAlign al'), st).
Proof.
  intros Hxyz. cbv zeta. unfold _align_check.
  erewrite bind_ok by reflexivity. cbv beta zeta iota delta [self].
  set (al' := if str_in _ ["a"; "auto"] then _ else _).
  destruct (str_in al' ["c"; "center"]).
  - destruct ((W s - W prev) mod 2 =? 1); mred; rewrite ?Hxyz; reflexivity.
  - destruct (str_in al' ["t"; "top"]); [mred; rewrite Hxyz; reflexivity|].
    destruct (str_in al' ["b"; "bottom"]); [mred; rewrite Hxyz; reflexivity|].
    reflexivity.
Qed.


(** X5.  Behind a built previous section [_align_check] changes nothing
    (neither the section nor the warnings) and raises in two cases only: an
    [align] value that, lower-cased, is none of the eight accepted ones
    ([ValueError] naming it), and a center alignment of widths that differ by
    an odd amount.  The mode it returns is never "auto" and never empty: it
    is one of "c", "center", "t", "top", "b", "bottom". *)
Theorem align_check_returns_iff (s prev : section) (g : G) (pxyz : A) (ws : list msg) :
  xyz prev = Some pxyz ->
  let st := mk_state s ws in
  let al := lower (align s) in
  ((exists r, _align_check (Some prev) g st = (Ok r, st))
   <-> str_in al align_values = true
       /\ str_in al ["c"; "center"] && ((W s - W prev) mod 2 =? 1) = false)
  /\ (str_in al align_values = false ->
      _align_check (Some prev) g st = (Raised ValueError (MsgAlign al), st))
  /\ forall r st',
       _align_check (Some prev) g st = (Ok r, st') ->
       st' = st
       /\ str_in (fst (fst r)) (["c"; "center"] ++ ["t"; "top"] ++ ["b"; "bottom"]) = true.
Proof.
  intros Hxyz st al.
  pose proof (@align_check_unfold s prev g pxyz ws Hxyz) as HU. cbv zeta in HU.
  fold st al in HU.
  unfold align_values. rewrite !str_in_app.
  destruct (str_in al ["a"; "auto"]) eqn:Ea.
  - (* auto: the resolved mode is a literal *)
    assert (Hc : str_in al ["c"; "center"] = false).
    { apply str_in_two in Ea as [->| ->]; reflexivity. }
    rewrite Hc. cbn [orb andb].
    destruct ((W s mod 2 =? 1) && ((W s - W prev) mod 2 =? 0)) eqn:Eodd.
    + apply andb_prop in Eodd as [_ Ed]. apply Z.eqb_eq in Ed.
      rewrite Ed in HU.
      cbn [str_in existsb String.eqb Ascii.eqb Bool.eqb orb Z.eqb] in HU.
      split; [split; [tauto | intros _; eexists; exact HU]|].
      split; [discriminate|].
      intros r st' H. rewrite HU in H. inversion H. split; reflexivity.
    + assert (HU' : exists m o b, _align_check (Some prev) g st = (Ok (m, o, b), st)
                                  /\ (m = "t" \/ m = "b")).
      { destruct (W prev mod 2 =? 0); [destruct (snd (_open_borders prev))|];
          cbn [str_in existsb String.eqb Ascii.eqb Bool.eqb orb] in HU;
          eexists _, _, _; (split; [exact HU | tauto]). }
      destruct HU' as (m & o & b & HU' & Hm).
      split; [split; [tauto | intros _; eexists; exact HU']|].
      split; [discriminate|].
      intros r st' H. rewrite HU' in H. inversion H. subst. cbn [fst].
      split; [reflexivity | destruct Hm as [->| ->]; reflexivity].
  - cbn [orb].
    destruct (str_in al ["c"; "center"]) eqn:Ec.
    + cbn [orb andb].
      destruct ((W s - W prev) mod 2 =? 1).
      * split; [split; [intros [r Hr]; rewrite HU in Hr; discriminate
                       | intros [_ Hf]; discriminate]|].
        split; [discriminate|].
        intros r st' H. rewrite HU in H. discriminate.
      * split; [split; [tauto | intros _; eexists; exact HU]|].
        split; [discriminate|].
        intros r st' H. rewrite HU in H. inversion H. subst. cbn [fst].
        split; [reflexivity | now rewrite !str_in_app, Ec].
    + cbn [orb andb]. destruct (str_in al ["t"; "top"]) eqn:Et.
      * cbn [orb].
        split; [split; [tauto | intros _; eexists; exact HU]|].
        split; [discriminate|].
        intros r st' H. rewrite HU in H. inversion H. subst. cbn [fst].
        split; [reflexivity | now rewrite !str_in_app, Ec, Et].
      * cbn [orb]. destruct (str_in al ["b"; "bottom"]) eqn:Eb.
        -- split; [split; [tauto | intros _; eexists; exact HU]|].
           split; [discriminate|].
           intros r st' H. rewrite HU in H. inversion H. subst. cbn [fst].
           split; [reflexivity | now rewrite !str_in_app, Ec, Et, Eb, !orb_true_r].
        -- split; [split; [intros [r Hr]; rewrite HU in Hr; discriminate
                          | intros [Hf _]; discriminate]|].
           split; [intros _; exact HU|].
           intros r st' H. rewrite HU in H. discriminate.
Qed.

(** *** The valid shifts of a junction *)

Lemma offset_from_center_returns (al : string) (prev : section) (st : st_) :
  al <> "" -> exists o, _offset_from_center al prev st = (Ok o, st).
Proof.
  intros Hal. destruct al as [|c al]; [congruence|].
  unfold _offset_from_center. mbind. cbn [lower first_char]. mbind.
  destruct (Ascii.eqb _ "t"); [eexists; reflexivity|].
  destruct (Ascii.eqb _ "b"); eexists; reflexivity.
Qed.

(** The two shift limits of a narrower odd section have different parities:
    the dict [shift_pars] holds both keys. *)
Lemma shift_pars_keys (p w : Z) (st : st_) :
  let closed := p / 2 + w / 2 - 2 in
  let open := p / 2 - w / 2 - 1 in
  let shift_pars := fold_left (fun d lim => dict_set d (lim mod 2) lim) [closed; open] [] in
  exists sp0 sp1,
    dict_get shift_pars 0 st = (Ok sp0, st) /\ dict_get shift_pars 1 st = (Ok sp1, st).
Proof.
  cbv zeta. set (closed := p / 2 + w / 2 - 2). set (open := p / 2 - w / 2 - 1).
  assert (H : (closed mod 2 = 0 /\ open mod 2 = 1) \/ (closed mod 2 = 1 /\ open mod 2 = 0)).
  { pose proof (Z.mod_pos_bound closed 2 ltac:(lia)).
    pose proof (Z.mod_pos_bound open 2 ltac:(lia)).
    pose proof (Z.div_mod closed 2 ltac:(lia)).
    pose proof (Z.div_mod open 2 ltac:(lia)).
    assert (closed + open = 2 * (p / 2) - 3) by (unfold closed, open; lia).
    lia. }
  cbn [fold_left]. unfold dict_set at 2. cbn [existsb app].
  destruct H as [[Hc Ho]|[Hc Ho]]; unfold dict_set; cbn [existsb fst]; rewrite Hc, Ho;
    cbn [Z.eqb orb app]; unfold dict_get; cbn [find fst Z.eqb]; eexists _, _;
    split; reflexivity.
Qed.

(** X6.  For a non-empty alignment (what [_align_check] returns always
    is), the valid shifts of a junction are always computed, for any widths
    and border state: no lookup in [shift_pars] misses a key, nothing is
    raised, and neither the section nor the warnings change.  The array is
    in ascending order. *)
Theorem valid_shifts_always_computed (s prev : section) (al : string) (ws : list msg) :
  al <> "" ->
  exists vs,
    valid_shifts_of prev al (mk_state s ws) = (Ok vs, mk_state s ws)
    /\ StronglySorted Z.le vs.
Proof.
  intros Hal.
  assert (H : exists vs, valid_shifts_of prev al (mk_state s ws) = (Ok vs, mk_state s ws)).
  { destruct (offset_from_center_returns prev (mk_state s ws) Hal) as [o Ho].
    unfold valid_shifts_of. mbind.
    destruct ((((W s - W prev) mod 4) mod 2 =? 0) && (W s mod 2 =? 1)).
    - destruct (W s <? W prev).
      + destruct (shift_pars_keys (W prev) (W s) (mk_state s ws)) as (sp0 & sp1 & H0 & H1).
        cbv zeta in H0, H1.
        erewrite bind_ok; [|erewrite bind_ok by exact H0;
                            erewrite bind_ok by exact H1;
                            erewrite bind_ok by exact Ho; reflexivity].
        eexists; reflexivity.
      + destruct (W prev =? W s); [eexists; reflexivity|].
        erewrite bind_ok; [|erewrite bind_ok by exact Ho; reflexivity].
        eexists; reflexivity.
    - destruct al as [|c al']; [congruence|].
      match goal with
      | |- context [let '(_, _) := ?x in _] => destruct x as [special bounds]
      end.
      destruct (Ascii.eqb c "t") eqn:Et; [|destruct (Ascii.eqb c "c") eqn:Ec];
        (erewrite bind_ok; [eexists; reflexivity|]);
        cbn [first_char]; mbind; rewrite ?Et, ?Ec; reflexivity. }
  destruct H as [vs H]. exists vs. split; [exact H|].
  exact (valid_shifts_sorted _ _ _ H).
Qed.

Lemma np_add_in (x k : Z) (l : list Z) : In x l -> In (x + k) (np_add l k).
Proof. intros H. unfold np_add. apply in_map_iff. now exists x. Qed.

(** X7.  Between two sections of equal width, odd or even, with the
    previous border open or closed and under any alignment, the shift 0 is
    always among the valid shifts. *)
Theorem equal_widths_zero_valid (s prev : section) (al : string) (ws : list msg) :
  W prev = W s -> al <> "" ->
  exists vs,
    valid_shifts_of prev al (mk_state s ws) = (Ok vs, mk_state s ws) /\ In 0 vs.
Proof.
  intros HW Hal.
  destruct (Z.eqb_spec (W s mod 2) 1) as [Hodd|Hodd].
  { exists [0]. split; [now apply valid_shifts_equal_odd | now left]. }
  apply Z.eqb_neq in Hodd.
  destruct al as [|c al']; [congruence|].
  unfold valid_shifts_of. mbind.
  rewrite HW, Z.sub_diag. change (0 mod 4 mod 2 =? 0) with true.
  rewrite Hodd. cbn [andb].
  assert (Hob : _offset_from_center "b" prev (mk_state s ws) = (Ok 0, mk_state s ws)).
  { transitivity (Ok (R := R) (At := At) (G := G) (A := A) ((W s - W prev) / 2),
                  mk_state s ws); [reflexivity|].
    now rewrite HW, Z.sub_diag. }
  destruct (snd (_open_borders prev));
    (destruct (Ascii.eqb c "t") eqn:Et; [|destruct (Ascii.eqb c "c") eqn:Ec]);
    (erewrite bind_ok;
       [|cbn [first_char]; mbind; rewrite ?Et, ?Ec;
         try (erewrite bind_ok; [|erewrite bind_ok by exact Hob; reflexivity]);
         reflexivity]);
    (eexists; split; [reflexivity|]);
    apply np_sort_in; apply (np_add_in 0); apply in_or_app; left; now left.
Qed.

Lemma count_occ_insert_sorted (x v : Z) (l : list Z) :
  count_occ Z.eq_dec (insert_sorted x l) v = count_occ Z.eq_dec (x :: l) v.
Proof.
  induction l as [|y l IH]; [reflexivity|].
  cbn [insert_sorted]. destruct (x <=? y); [reflexivity|].
  cbn [count_occ] in *. rewrite IH.
  destruct (Z.eq_dec y v), (Z.eq_dec x v); reflexivity.
Qed.

Lemma count_occ_np_sort (v : Z) (l : list Z) :
  count_occ Z.eq_dec (np_sort l) v = count_occ Z.eq_dec l v.
Proof.
  induction l as [|x l IH]; [reflexivity|].
  cbn [np_sort fold_right]. rewrite count_occ_insert_sorted.
  cbn [count_occ]. fold (np_sort l). now rewrite IH.
Qed.

Lemma count_occ_np_add (v k : Z) (l : list Z) :
  count_occ Z.eq_dec (np_add l k) (v + k) = count_occ Z.eq_dec l v.
Proof.
  unfold np_add. symmetry.
  apply (count_occ_map (fun x => x + k) Z.eq_dec Z.eq_dec). intros a b H. lia.
Qed.

Lemma arange_head (start stop : Z) :
  start < stop -> exists rest, arange start stop 2 = start :: rest.
Proof.
  intros H. unfold arange.
  assert (Hn : (0 < Z.to_nat ((stop - start + 2 - 1) / 2))%nat).
  { assert (0 < (stop - start + 2 - 1) / 2) by (apply Z.div_str_pos; lia). lia. }
  destruct (Z.to_nat ((stop - start + 2 - 1) / 2)) as [|n]; [lia|].
  cbn [seq map]. eexists. f_equal. cbn. lia.
Qed.

Lemma mod4_mod2 (x : Z) : (x mod 4) mod 2 = x mod 2.
Proof.
  pose proof (Z.div_mod x 4 ltac:(lia)). pose proof (Z.mod_pos_bound x 4 ltac:(lia)).
  pose proof (Z.div_mod (x mod 4) 2 ltac:(lia)).
  pose proof (Z.mod_pos_bound (x mod 4) 2 ltac:(lia)).
  pose proof (Z.div_mod x 2 ltac:(lia)). pose proof (Z.mod_pos_bound x 2 ltac:(lia)).
  lia.
Qed.

(** X8.  The valid shifts are not free of repetitions: behind an even
    section with an open top border, for a narrower odd section of width at
    least 3, the special shift [previous.W - W] is also the first element of
    the range added to it, so that shift (moved by the alignment offset)
    occurs twice in the array. *)
Theorem valid_shifts_repeat_special (s prev : section) (al : string) (ws : list msg) :
  W prev mod 2 = 0 -> W s mod 2 = 1 -> 3 <= W s -> W s < W prev ->
  snd (_open_borders prev) = true -> al <> "" ->
  let shift_offset :=
    match al with
    | String c _ =>
        if Ascii.eqb c "t" then W s - W prev
        else if Ascii.eqb c "c" then - ((W s - W prev) / 2)
        else 0
    | EmptyString => 0
    end in
  exists vs,
    valid_shifts_of prev al (mk_state s ws) = (Ok vs, mk_state s ws)
    /\ (2 <= count_occ Z.eq_dec vs ((W prev - W s + shift_offset)%Z))%nat.
Proof.
  intros Hp Hs H3 Hlt Hopen Hal. cbv zeta.
  destruct al as [|c al']; [congruence|].
  assert (Hd : ((W s - W prev) mod 4) mod 2 = 1).
  { rewrite mod4_mod2, Zminus_mod, Hp, Hs. reflexivity. }
  assert (Hr : exists rest,
             arange (W prev - W s) (W prev - W s + 1 + (W s - 2) / 2 * 2 + 1) 2
             = (W prev - W s) :: rest).
  { apply arange_head.
    assert (0 <= (W s - 2) / 2) by (apply Z.div_pos; lia). lia. }
  destruct Hr as [rest Hr].
  unfold valid_shifts_of. mbind.
  rewrite Hd, Hs, Hopen. apply Z.ltb_lt in Hlt. rewrite Hlt.
  cbn [Z.eqb Pos.eqb andb]. cbv beta iota. rewrite Hr.
  destruct (Ascii.eqb c "t") eqn:Et; [|destruct (Ascii.eqb c "c") eqn:Ec];
    (erewrite bind_ok;
       [|cbn [first_char]; mbind; rewrite ?Et, ?Ec; reflexivity]);
    (eexists; split; [reflexivity|]);
    rewrite count_occ_np_sort, count_occ_np_add; cbn [app count_occ];
    destruct (Z.eq_dec (W prev - W s) (W prev - W s)); try congruence; lia.
Qed.

(** *** What [_parse_shift] returns *)

Lemma np_index_In (l : list Z) (i v : Z) : np_index l i = Some v -> In v l.
Proof.
  unfold np_index. destruct (_ && _); [apply nth_error_In|].
  destruct (_ && _); [apply nth_error_In | discriminate].
Qed.

Lemma when_raise_ok (b : bool) (prev : section) d (st st2 : st_) u :
  when b (_junction_error (WPolicy Raise) prev d) st = (Ok u, st2) ->
  b = false /\ st2 = st.
Proof. destruct b; intros H; inversion H; auto. Qed.

Lemma resolve_shift_returns (s prev : section) (vs : list Z) (sh v : Z) (ws : list msg)
      (st' : st_) :
  resolve_shift sh prev vs (mk_state s ws) = (Ok v, st') ->
  (shift_quantum s = false -> v = sh)
  /\ (shift_quantum s = true -> In v vs)
  /\ (on_lone_atom s = Raise -> In v vs /\ st' = mk_state s ws).
Proof.
  intros H. unfold resolve_shift in H.
  apply bind_inv in H as (s0 & st0 & Hg & H).
  assert (s0 = s /\ st0 = mk_state s ws) as [-> ->] by (inversion Hg; auto). clear Hg.
  cbn [self] in H. destruct (shift_quantum s).
  - apply bind_inv in H as (a & st1 & Ha & H).
    apply stateless_aligned_shift_of in Ha as E. subst st1.
    apply bind_inv in H as ([] & st2 & Hw & H).
    destruct (np_index vs (a + sh)) as [v'|] eqn:Ei; [|discriminate].
    inversion H; subst; clear H.
    apply np_index_In in Ei.
    split; [discriminate|]. split; [auto|].
    intros Hp. split; [exact Ei|]. rewrite Hp in Hw.
    now apply when_raise_ok in Hw as [_ ->].
  - apply bind_inv in H as ([] & st2 & Hw & H).
    inversion H; subst; clear H.
    split; [reflexivity|]. split; [discriminate|].
    intros Hp. rewrite Hp in Hw.
    destruct (np_mem v vs) eqn:Em; [|discriminate].
    split; [now apply np_mem_In | now inversion Hw].
Qed.

(** X9.  Whenever [_parse_shift] returns: the section is unchanged;
    without quantization the result is the requested shift, never another
    one; under "ignore" nothing at all is checked or recorded; in quantized
    mode, and in either mode under "raise", the result is one of the valid
    shifts of the junction, and under "raise" no warning is recorded. *)
Theorem parse_shift_returns (s prev : section) (al : string) (sh v : Z) (ws : list msg)
        (st' : st_) :
  _parse_shift sh prev al (mk_state s ws) = (Ok v, st') ->
  self st' = s
  /\ (shift_quantum s = false -> v = sh)
  /\ (on_lone_atom s = Ignore -> v = sh /\ st' = mk_state s ws)
  /\ (on_lone_atom s <> Ignore ->
      exists vs,
        valid_shifts_of prev al (mk_state s ws) = (Ok vs, mk_state s ws)
        /\ (shift_quantum s = true -> In v vs)
        /\ (on_lone_atom s = Raise -> In v vs /\ st' = mk_state s ws)).
Proof.
  intros H.
  split; [exact (readonly_parse_shift _ _ _ _ H)|].
  unfold _parse_shift in H.
  apply bind_inv in H as (s0 & st0 & Hg & H).
  assert (s0 = s /\ st0 = mk_state s ws) as [-> ->] by (inversion Hg; auto). clear Hg.
  cbn [self] in H.
  destruct (policy_eqb (on_lone_atom s) Ignore) eqn:Ep.
  - apply policy_eqb_eq in Ep. inversion H; subst; clear H.
    split; [reflexivity|]. split; [now split | contradiction].
  - assert (Hni : on_lone_atom s <> Ignore).
    { intros E. rewrite E in Ep. discriminate. }
    apply bind_inv in H as ([] & st1 & Hw & H).
    apply when_raise_ok in Hw as [_ ->].
    apply bind_inv in H as (vs & st2 & Hvs & H).
    apply stateless_valid_shifts_of in Hvs as E. subst st2.
    destruct (resolve_shift_returns _ _ _ _ _ H) as (Hnq & Hq & Hr).
    split; [exact Hnq|]. split; [contradiction|].
    intros _. exists vs. auto.
Qed.

(** X10.  Quantized mode on a junction that passes the first check and has
    a non-empty valid set: the shift 0 always resolves, to the valid shift
    nearest to zero, which is 0 itself whenever 0 is valid; and the quantized
    shifts keep their order: a larger requested shift never resolves to a
    smaller actual shift. *)
Theorem quantized_shift_zero_and_order (s prev : section) (al : string) (ws : list msg)
        (vs : list Z) :
  shift_quantum s = true -> on_lone_atom s = Raise ->
  (W prev mod 2 =? 1) && (W s <? W prev) && snd (_open_borders prev) = false ->
  valid_shifts_of prev al (mk_state s ws) = (Ok vs, mk_state s ws) ->
  vs <> [] ->
  (exists v0,
     _parse_shift 0 prev al (mk_state s ws) = (Ok v0, mk_state s ws)
     /\ In v0 vs
     /\ (forall u, In u vs -> Z.abs v0 <= Z.abs u)
     /\ (In 0 vs -> v0 = 0))
  /\ (forall sh1 sh2 v1 v2 st1 st2,
        sh1 <= sh2 ->
        _parse_shift sh1 prev al (mk_state s ws) = (Ok v1, st1) ->
        _parse_shift sh2 prev al (mk_state s ws) = (Ok v2, st2) ->
        v1 <= v2).
Proof.
  intros Hq Hp Hchk Hvs Hne.
  pose proof (valid_shifts_sorted _ _ _ Hvs) as Hsorted.
  destruct (aligned_shift_spec (mk_state s ws) Hsorted Hne)
    as (k & v & Hk & Ha & Hv & H0 & Hnear).
  assert (Hps : forall sh,
             _parse_shift sh prev al (mk_state s ws)
             = resolve_shift sh prev vs (mk_state s ws)).
  { intros sh. unfold _parse_shift. mbind. rewrite Hp. cbn [policy_eqb].
    rewrite Hchk. cbn [when]. mbind. now rewrite (bind_ok _ _ _ Hvs). }
  pose proof (fun sh => @resolve_shift_quantum s prev vs sh (Z.of_nat k) ws Hq Hp Ha) as Hres.
  cbv zeta in Hres.
  split.
  - exists v. rewrite Hps, Hres.
    replace (Z.of_nat k + 0) with (Z.of_nat k) by lia.
    replace ((0 <=? Z.of_nat k) && (Z.of_nat k <? Z.of_nat (List.length vs))) with true
      by (symmetry; apply andb_true_intro; split; [apply Z.leb_le | apply Z.ltb_lt]; lia).
    rewrite Nat2Z.id, Hv.
    split; [reflexivity|]. split; [eapply nth_error_In; exact Hv|].
    destruct (in_dec Z.eq_dec 0 vs) as [Hin|Hnin].
    + destruct (H0 Hin) as [-> _]. split; [intros u _; cbn; lia | reflexivity].
    + split; [intros u Hu; now apply Hnear | contradiction].
  - intros sh1 sh2 v1 v2 st1 st2 Hle H1 H2.
    rewrite Hps, Hres in H1. rewrite Hps, Hres in H2.
    destruct ((0 <=? Z.of_nat k + sh1) && (Z.of_nat k + sh1 <? Z.of_nat (List.length vs)))
      eqn:E1; [|discriminate].
    destruct ((0 <=? Z.of_nat k + sh2) && (Z.of_nat k + sh2 <? Z.of_nat (List.length vs)))
      eqn:E2; [|discriminate].
    apply andb_prop in E1 as [E1a E1b]. apply andb_prop in E2 as [E2a E2b].
    apply Z.leb_le in E1a, E2a. apply Z.ltb_lt in E1b, E2b.
    destruct (nth_error vs (Z.to_nat (Z.of_nat k + sh1))) as [x1|] eqn:N1; [|discriminate].
    destruct (nth_error vs (Z.to_nat (Z.of_nat k + sh2))) as [x2|] eqn:N2; [|discriminate].
    inversion H1; inversion H2; subst.
    rewrite <- (nth_error_nth _ _ 0 N1), <- (nth_error_nth _ _ 0 N2).
    apply sorted_nth_le; [exact Hsorted | lia | lia].
Qed.

(** *** A build that raises *)

Local Abbreviation keeps_self_on_raise c := (@keeps_self_on_raise R At G A _ c).

Lemma ksr_of_readonly {T} (c : Mon T) : readonly c -> keeps_self_on_raise c.
Proof. intros H st e m st' E. exact (H _ _ _ E). Qed.



Lemma shift_and_flip_returns (g : G) (st : st_) :
  exists v st',
    (new_section <- _shift_unit_cell g ;; flip_open_border0 ;; ret new_section) st
    = (Ok v, st').
Proof. eexists _, _. reflexivity. Qed.




(** *** A build that returns *)

(** The last write of a build records the coordinates of the geometry it
    returns. *)
Lemma build_section_xyz (previous : option section) (st st' : st_) (g : G) :
  build_section previous st = (Ok g, st') -> xyz (self st') = Some (g_xyz g).
Proof.
  intros H. unfold build_section in H.
  apply bind_inv in H as (ns & st1 & _ & H).
  apply bind_inv in H as (ns' & st2 & _ & H).
  apply bind_inv in H as (s2 & st3 & Hg & H).
  apply bind_inv in H as ([] & st4 & Hb & H).
  apply bind_inv in H as ([] & st5 & Hx & H).
  inversion Hg; subst; clear Hg.
  inversion Hb; subst; clear Hb.
  inversion Hx; subst; clear Hx.
  inversion H; subst; clear H.
  reflexivity.
Qed.

(** X12.  When [build_section] returns a geometry, the coordinates recorded
    on the section are those of that geometry, and nothing else of the
    section has changed but the border flags: its parameters and its
    pristine ribbon are as before.  A section that has been built can
    therefore always serve as [previous] (its [xyz] is set). *)
Theorem build_section_records_xyz (previous : option section) (st st' : st_) (g : G) :
  build_section previous st = (Ok g, st') ->
  xyz (self st') = Some (g_xyz g)
  /\ static (self st') = static (self st).
Proof.
  intros H. split; [exact (build_section_xyz _ _ H) | exact (framed_build_section _ _ H)].
Qed.



(** *** [add_section] and the list of placed sections *)

(** [add_section] looks at the last placed section only: the sections
    before it have no effect on the result, and with no placed section and
    no composite it is [build_section(None)]. *)
Lemma add_section_uses_last (geometry0 : option G) (before : list section)
      (prev : section) (st : st_) :
  add_section geometry0 (before ++ [prev]) st = add_section geometry0 [prev] st
  /\ add_section None [] st = build_section None st.
Proof.
  split.
  - unfold add_section.
    replace (0 <? Z.of_nat (List.length (before ++ [prev]))) with true
      by (symmetry; apply Z.ltb_lt; rewrite length_app; cbn; lia).
    replace (nth_error (before ++ [prev]) (List.length (before ++ [prev]) - 1))
      with (Some prev); [reflexivity|].
    rewrite length_app. cbn [List.length].
    replace (List.length before + 1 - 1)%nat with (List.length before) by lia.
    rewrite nth_error_app2 by lia. now rewrite Nat.sub_diag.
  - unfold add_section. cbn -[build_section].
    unfold bind. destruct (build_section None st) as [[g|e m] st1]; reflexivity.
Qed.


(** *** The first section, built again *)




(** *** The valid shifts of a wider odd section *)

Lemma arange_in (v start stop : Z) :
  In v (arange start stop 2) <-> start <= v < stop /\ (v - start) mod 2 = 0.
Proof.
  unfold arange. rewrite in_map_iff. split.
  - intros (i & <- & Hi). apply in_seq in Hi.
    destruct (Z.le_gt_cases stop start) as [Hle|Hgt].
    + exfalso.
      assert ((stop - start + 2 - 1) / 2 <= 0).
      { apply Z.lt_succ_r. apply Z.div_lt_upper_bound; lia. }
      lia.
    + pose proof (Z.mul_div_le (stop - start + 2 - 1) 2 ltac:(lia)).
      split; [lia|].
      replace (start + 2 * Z.of_nat i - start) with (Z.of_nat i * 2) by lia.
      apply Z.mod_mul. lia.
  - intros [[Hlo Hhi] Hev].
    pose proof (Z.div_mod (v - start) 2 ltac:(lia)) as Hdm. rewrite Hev in Hdm.
    exists (Z.to_nat ((v - start) / 2)). split; [lia|].
    apply in_seq. split; [lia|]. cbn [plus].
    apply Z2Nat.inj_lt; [lia | apply Z.div_pos; lia |].
    apply Z.div_lt_upper_bound; [lia|].
    pose proof (Z.mul_div_le (stop - start + 2 - 1) 2 ltac:(lia)).
    pose proof (Z.mod_pos_bound (stop - start + 2 - 1) 2 ltac:(lia)).
    pose proof (Z.div_mod (stop - start + 2 - 1) 2 ltac:(lia)).
    lia.
Qed.

Lemma offset_from_center_explicit (c : ascii) (al' : string) (s prev : section)
      (ws : list msg) :
  _offset_from_center (String c al') prev (mk_state s ws)
  = (Ok (if Ascii.eqb (lower_ascii c) "t" then (- (W s - W prev)) / 2
         else if Ascii.eqb (lower_ascii c) "b" then (W s - W prev) / 2
         else 0),
     mk_state s ws).
Proof.
  unfold _offset_from_center. mbind. cbn [lower first_char]. mbind.
  destruct (Ascii.eqb _ "t"); [reflexivity|].
  destruct (Ascii.eqb _ "b"); reflexivity.
Qed.

(** X16.  Behind an odd section, for a strictly wider odd section, the
    valid shifts are exactly the shifts within [shift_lim] of the alignment
    offset that have the parity of [offset - shift_lim]: a window symmetric
    about the offset, in steps of 2 (empty when [shift_lim] is negative).
    [shift_lim] depends on the width difference mod 4 and on the previous
    border; the offset is 0 for a center alignment. *)
Theorem valid_shifts_wider_odd (s prev : section) (c : ascii) (al' : string)
        (ws : list msg) :
  W s mod 2 = 1 -> W prev mod 2 = 1 -> W prev < W s ->
  let d := W s - W prev in
  let opened := snd (_open_borders prev) in
  let shift_lim :=
    if (d mod 4 =? 2) && opened || (d mod 4 =? 0) && negb opened
    then d / 2 / 2 * 2
    else if opened then d / 2 - 1 else d / 2 + (W prev / 2 - 1) * 2 in
  let offset :=
    if Ascii.eqb (lower_ascii c) "t" then (- d) / 2
    else if Ascii.eqb (lower_ascii c) "b" then d / 2
    else 0 in
  exists vs,
    valid_shifts_of prev (String c al') (mk_state s ws) = (Ok vs, mk_state s ws)
    /\ (forall v, In v vs
                  <-> offset - shift_lim <= v <= offset + shift_lim
                      /\ (v - offset + shift_lim) mod 2 = 0)
    /\ (forall v, In v vs -> In (2 * offset - v) vs).
Proof.
  intros Hs Hp Hlt. cbv zeta.
  set (d := W s - W prev). set (opened := snd (_open_borders prev)).
  set (lim := if (d mod 4 =? 2) && opened || (d mod 4 =? 0) && negb opened
              then d / 2 / 2 * 2
              else if opened then d / 2 - 1 else d / 2 + (W prev / 2 - 1) * 2).
  set (off := if Ascii.eqb (lower_ascii c) "t" then (- d) / 2
              else if Ascii.eqb (lower_ascii c) "b" then d / 2 else 0).
  assert (Hvs : valid_shifts_of prev (String c al') (mk_state s ws)
                = (Ok (np_sort (arange (- lim + off) (lim + off + 1) 2)), mk_state s ws)).
  { unfold valid_shifts_of. mbind. fold d.
    assert (Hd : (d mod 4) mod 2 = 0).
    { unfold d. rewrite mod4_mod2, Zminus_mod, Hp, Hs. reflexivity. }
    rewrite Hd, Hs. cbn [Z.eqb Pos.eqb andb].
    replace (W s <? W prev) with false by (symmetry; apply Z.ltb_ge; lia).
    replace (W prev =? W s) with false by (symmetry; apply Z.eqb_neq; lia).
    fold opened. fold lim.
    rewrite (bind_ok _ _ _ (bind_ok _ _ _ (offset_from_center_explicit c al' s prev ws))).
    reflexivity. }
  assert (Hin : forall v, In v (np_sort (arange (- lim + off) (lim + off + 1) 2))
                          <-> off - lim <= v <= off + lim /\ (v - off + lim) mod 2 = 0).
  { intros v. rewrite np_sort_in, arange_in.
    replace (v - (- lim + off)) with (v - off + lim) by lia.
    split; intros [H1 H2]; (split; [lia | exact H2]). }
  eexists. split; [exact Hvs|]. split; [exact Hin|].
  intros v Hv. apply Hin in Hv as [Hr Hev]. apply Hin. split; [lia|].
  pose proof (Z.div_mod (v - off + lim) 2 ltac:(lia)) as H1. rewrite Hev in H1.
  replace (2 * off - v - off + lim) with ((lim - (v - off + lim) / 2) * 2) by lia.
  apply Z.mod_mul. lia.
Qed.

(** *** Shifts without quantization *)

(** X17.  Without quantization, on a junction that passes the first check
    and has the valid shifts [vs]: under "raise" the requested shift is
    returned exactly when it is in [vs], and otherwise the build aborts with
    the lone-atom error listing [vs]; under "warn" the requested shift is
    always returned, and the same message is recorded as a warning exactly
    when the shift is not in [vs]. *)
Theorem parse_shift_plain_resolution (s prev : section) (al : string) (sh : Z)
        (ws : list msg) (vs : list Z) :
  shift_quantum s = false ->
  (W prev mod 2 =? 1) && (W s <? W prev) && snd (_open_borders prev) = false ->
  valid_shifts_of prev al (mk_state s ws) = (Ok vs, mk_state s ws) ->
  (on_lone_atom s = Raise ->
   _parse_shift sh prev al (mk_state s ws)
   = if np_mem sh vs then (Ok sh, mk_state s ws)
     else (Raised PolicyError (MsgJunction prev s (ShiftOneOf vs sh)), mk_state s ws))
  /\ (on_lone_atom s = Warn ->
      _parse_shift sh prev al (mk_state s ws)
      = (Ok sh,
         mk_state s (if np_mem sh vs then ws
                     else ws ++ [MsgJunction prev s (ShiftOneOf vs sh)]))).
Proof.
  intros Hq Hchk Hvs.
  assert (Hps : on_lone_atom s <> Ignore ->
                _parse_shift sh prev al (mk_state s ws)
                = bind (when (negb (np_mem sh vs))
                          (_junction_error (WPolicy (on_lone_atom s)) prev
                             (ShiftOneOf vs sh)))
                       (fun _ => ret sh) (mk_state s ws)).
  { intros Hp. unfold _parse_shift. mbind.
    destruct (policy_eqb (on_lone_atom s) Ignore) eqn:E;
      [apply policy_eqb_eq in E; contradiction|].
    rewrite Hchk. cbn [when]. mbind. rewrite (bind_ok _ _ _ Hvs).
    unfold resolve_shift. mbind. now rewrite Hq. }
  split; intros Hp; (rewrite Hps by (rewrite Hp; discriminate));
    rewrite Hp; destruct (np_mem sh vs); reflexivity.
Qed.

End Properties.

(* ================================================================== *)
(** ** The properties on concrete sections *)

Module Runs.

Import Exact.

Local Abbreviation st0 s := (mk_state (R := Q) (At := string) (G := geom) (A := list pos) s []).

(** C1 at [Section(7, 2)] followed by [Section(7, 2, shift=1,
    on_lone_atom="warn")]: the valid shifts are [[0]], the shift 0 passes,
    the shift 1 is warned about with the valid set in the message. *)
Lemma equal_odd_widths_only_zero_run :
  valid_shifts_of prev7 "bottom" (st0 sec7_warn) = (Ok [0], st0 sec7_warn)
  /\ _parse_shift 0 prev7 "bottom" (st0 sec7_warn) = (Ok 0, st0 sec7_warn)
  /\ _parse_shift 1 prev7 "bottom" (st0 sec7_warn)
     = (Ok 1, mk_state sec7_warn [MsgJunction prev7 sec7_warn (ShiftOneOf [0] 1)]).
Proof.
  destruct (@equal_odd_widths_only_zero _ _ _ _ sec7_warn prev7 "bottom" []
              eq_refl eq_refl ltac:(discriminate)) as [Hv Hq].
  destruct (Hq eq_refl) as [H0 Hsh].
  destruct (Hsh 1 ltac:(discriminate)) as (_ & _ & Hw).
  split; [exact Hv|]. split; [exact H0|]. exact (Hw eq_refl).
Defined.

(** C2 at [Section(5, 1)] built first: the last row is cut and the top
    border comes out open. *)
Lemma build_section_top_border_run :
  exists g,
    build_section None (st0 sec5) = (Ok g, st0 prev5)
    /\ _open_borders prev5 = (false, true)
    /\ snd (_open_borders prev5)
       = xorb (fst (_open_borders prev5)) (cut_last_of (L prev5))
    /\ cut_last_of (L prev5) = ((L sec5 + 1) mod 2 =? 0).
Proof.
  eexists.
  assert (H : build_section None (st0 sec5) = (Ok _, st0 prev5))
    by (vm_compute; reflexivity).
  split; [exact H|]. split; [reflexivity|].
  exact (build_section_top_border _ _ H).
Defined.

(** C3.  A zigzag section with odd [L], [Section(2, 1, kind="zigzag")],
    built first: its longitudinal axis is 1 and the last row is to be cut,
    but the entry scaled by [L / (L + 1)] is [cell[0, 0]], the transverse one;
    the longitudinal cell vector keeps its length and no atom is removed. *)
Example zigzag_cut_scales_transverse_cell :
  __post_init__ (args 2 1 0 "bottom" "zigzag" false Ignore) = Ok zig2
  /\ long_ax zig2 = Ax1 /\ trans_ax zig2 = Ax0
  /\ cut_last_of (L zig2) = true
  /\ exists g st',
       build_section None (st0 zig2) = (Ok g, st')
       /\ let tiled := g_tile (geometry zig2) (tiles_of (L zig2)) Ax1 in
          g_cell g Ax1 Ax1 = g_cell tiled Ax1 Ax1
          /\ g_cell g Ax0 Ax0
             = fmul (g_cell tiled Ax0 Ax0) (fdiv (of_int (L zig2)) (of_int (L zig2 + 1)))
          /\ g_cell g Ax0 Ax0 <> g_cell tiled Ax0 Ax0
          /\ g_xyz g = g_xyz tiled.
Proof.
  split; [vm_compute; reflexivity|].
  split; [reflexivity|]. split; [reflexivity|]. split; [reflexivity|].
  eexists _, _. split; [vm_compute; reflexivity|].
  cbv zeta. repeat split; try (vm_compute; reflexivity).
  vm_compute. discriminate.
Qed.

(** C4 fails under warn: behind [Section(5, 1)], odd, wider and left with
    an open top border, [Section(3, 1, on_lone_atom="warn")] is not warned
    about: the shift resolution, and with it the build, aborts. *)
Lemma odd_wider_open_under_warn_aborts :
  W prev5 mod 2 = 1 /\ W sec3_warn < W prev5 /\ snd (_open_borders prev5) = true
  /\ on_lone_atom sec3_warn = Warn
  /\ _parse_shift 0 prev5 "bottom" (st0 sec3_warn)
     = (Raised PolicyError (MsgJunction prev5 sec3_warn OddWiderOpen), st0 sec3_warn)
  /\ build_section (Some prev5) (st0 sec3_warn)
     = (Raised PolicyError (MsgJunction prev5 sec3_warn OddWiderOpen), st0 sec3_warn).
Proof.
  repeat split; vm_compute; reflexivity.
Qed.

(** The amended C4 at the same junction. *)
Lemma odd_wider_open_is_fatal_run :
  _parse_shift 0 prev5 "bottom" (st0 sec3_warn)
  = (Raised PolicyError (MsgJunction prev5 sec3_warn OddWiderOpen), st0 sec3_warn).
Proof.
  exact (proj2 (@odd_wider_open_is_fatal _ _ _ _ sec3_warn prev5 "bottom" 0 []
                  eq_refl eq_refl eq_refl)
               ltac:(discriminate)).
Defined.

(** C5.  [Section(1, 2)] followed by [Section(3, 2, shift_quantum=True)]:
    the policy is overwritten to raise, the valid set of the junction is
    empty, and the quantized lookup ends in numpy's [ValueError] for the
    [argmin] of an empty array, not in the lone-atom error with an index
    range. *)
Example quantized_empty_valid_set :
  __post_init__ (args 1 2 0 "bottom" "armchair" false Ignore) = Ok sec1
  /\ (exists g, build_section None (st0 sec1) = (Ok g, st0 prev1))
  /\ __post_init__ (args 3 2 0 "bottom" "armchair" true Ignore) = Ok sec3_quantum
  /\ on_lone_atom sec3_quantum = Raise
  /\ valid_shifts_of prev1 "bottom" (st0 sec3_quantum) = (Ok [], st0 sec3_quantum)
  /\ _parse_shift 0 prev1 "bottom" (st0 sec3_quantum)
     = (Raised ValueError MsgArgminEmpty, st0 sec3_quantum)
  /\ build_section (Some prev1) (st0 sec3_quantum)
     = (Raised ValueError MsgArgminEmpty, st0 sec3_quantum).
Proof.
  split; [vm_compute; reflexivity|].
  split; [eexists; vm_compute; reflexivity|].
  repeat split; vm_compute; reflexivity.
Qed.

(** C6 at [Section(7, 2)] followed by [Section(9, 2, align="auto")]. *)
Lemma auto_alignment_resolution_run :
  exists offset aligned_match,
    _align_check (Some prev7) (geometry sec9_auto) (st0 sec9_auto)
    = (Ok ("c", offset, aligned_match), st0 sec9_auto).
Proof.
  exact (proj1 (@auto_alignment_resolution _ _ _ _ _ _ sec9_auto prev7
                  (geometry sec9_auto) (g_xyz ribbon7) [] eq_refl eq_refl)).
Defined.

(** C7 at [Section(7, 2)] followed by [Section(8, 2, align="Center")],
    whose policy is ignore. *)
Lemma center_alignment_parity_is_fatal_run :
  on_lone_atom sec8_center = Ignore
  /\ _align_check (Some prev7) (geometry sec8_center) (st0 sec8_center)
     = (Raised PolicyError (MsgJunction prev7 sec8_center CenterParity), st0 sec8_center)
  /\ exists e m, build_section (Some prev7) (st0 sec8_center) = (Raised e m, st0 sec8_center).
Proof.
  split; [reflexivity|].
  exact (proj1 (@center_alignment_parity_is_fatal _ _ _ _ _ _ sec8_center prev7
                  (geometry sec8_center) [] eq_refl) eq_refl).
Defined.

(** C8 fails at width 0 and at a negative width: [nanoribbon] returns the
    ribbon of width 1. *)
Lemma nanoribbon_accepts_width_zero :
  is_ok (nanoribbon (142 # 100)%Q "C" (PyInt 0) "armchair") = true
  /\ nanoribbon (142 # 100)%Q "C" (PyInt 0) "armchair"
     = nanoribbon (142 # 100)%Q "C" (PyInt 1) "armchair"
  /\ is_ok (nanoribbon (142 # 100)%Q "C" (PyInt (-4)) "zigzag") = true.
Proof.
  repeat split; vm_compute; reflexivity.
Qed.

(** The amended C8 at the widths [3.5], [-4] and [0]. *)
Lemma nanoribbon_width_check_run :
  nanoribbon (142 # 100)%Q "C" (PyFloat (7 # 2)) "armchair"
  = Raised ValueError (MsgWidth (PyFloat (7 # 2)))
  /\ nanoribbon (142 # 100)%Q "C" (PyInt (-4)) "armchair"
     = nanoribbon (142 # 100)%Q "C" (PyInt 1) "armchair"
  /\ is_ok (nanoribbon (142 # 100)%Q "C" (PyInt 0) "armchair") = true.
Proof.
  destruct (nanoribbon_width_check (142 # 100)%Q "C" (PyFloat (7 # 2)) "armchair")
    as (Hf & _ & _).
  destruct (nanoribbon_width_check (142 # 100)%Q "C" (PyInt 0) "armchair")
    as (_ & Hneg & Hok).
  split; [exact (Hf eq_refl)|].
  split; [exact (Hneg (-4) ltac:(discriminate)) | exact (Hok 0 eq_refl)].
Defined.

(** C9.  Behind the zigzag composite of [Section(2, 2, kind="zigzag")],
    the section [Section(2, 2, shift=2, kind="zigzag")] reaches above the
    composite's transverse cell length [cell[0, 0]], but the test reads
    [cell[1, 1]], which it does not exceed: the cell is not expanded and the
    section is appended as built. *)
Example zigzag_section_above_cell_not_padded :
  __post_init__ (args 2 2 0 "bottom" "zigzag" false Ignore) = Ok zig_first
  /\ add_section None [] (st0 zig_first) = (Ok zig_composite, st0 zig_prev)
  /\ __post_init__ (args 2 2 2 "bottom" "zigzag" false Ignore) = Ok zig_up
  /\ trans_ax zig_up = Ax0 /\ long_ax zig_up = Ax1
  /\ fst (build_section (Some zig_prev) (st0 zig_up)) = Ok zig_up_built
  /\ flt (a_min (g_xyz zig_up_built) Ax0) (of_int 0) = false
  /\ flt (g_cell zig_composite Ax0 Ax0) (a_max (g_xyz zig_up_built) Ax0) = true
  /\ flt (g_cell zig_composite Ax1 Ax1) (a_max (g_xyz zig_up_built) Ax0) = false
  /\ fst (add_section (Some zig_composite) [zig_prev] (st0 zig_up)) = Ok zig_joined
  /\ zig_joined = g_append zig_composite zig_up_built Ax1
  /\ g_cell zig_joined Ax0 Ax0 = g_cell zig_composite Ax0 Ax0.
Proof.
  repeat split; vm_compute; reflexivity.
Qed.

(** C10 at [Section(7, 2, kind="Armchair")]. *)
Lemma post_init_unknown_kind_run :
  __post_init__ (args 7 2 0 "bottom" "Armchair" false Ignore)
  = Raised NameError (MsgNameNotDefined "kind")
  /\ is_ok (nanoribbon (142 # 100)%Q "C" (PyInt 7) "Armchair") = true.
Proof.
  destruct (@post_init_unknown_kind _ _ _ _ _ _
              (args 7 2 0 "bottom" "Armchair" false Ignore)
              ltac:(discriminate) ltac:(discriminate)) as [H Hn].
  split; [exact H|]. exact (proj1 (Hn (142 # 100)%Q "C" 7)).
Defined.

(** *** Further properties on concrete sections *)

(** X1 at the kind ["Hexagonal"]. *)
Lemma nanoribbon_kind_check_run :
  nanoribbon (142 # 100)%Q "C" (PyInt 7) "Hexagonal"
  = Raised ValueError (MsgKind "hexagonal")
  /\ nanoribbon (142 # 100)%Q "C" (PyFloat (7 # 1)) "Hexagonal"
     = Raised ValueError (MsgWidth (PyFloat (7 # 1))).
Proof.
  destruct (nanoribbon_kind_check (142 # 100)%Q "C" "Hexagonal") as (_ & Hk & Hw).
  split; [exact (Hk 7 eq_refl) | exact (Hw (PyFloat (7 # 1)) eq_refl)].
Defined.

(** X3 at [Section(7, 2, on_lone_atom="raise")]. *)
Lemma post_init_succeeds_iff_run :
  is_ok (__post_init__ (args 7 2 0 "bottom" "armchair" false Raise)) = true
  /\ (long_ax sec7, trans_ax sec7) = (Ax0, Ax1)
  /\ _open_borders sec7 = (false, false)
  /\ xyz sec7 = None
  /\ nanoribbon (bond sec7) (atoms sec7) (PyInt 7) "armchair" = Ok (geometry sec7).
Proof.
  destruct (post_init_succeeds_iff (args 7 2 0 "bottom" "armchair" false Raise))
    as [Hiff Hs].
  split; [exact (proj2 Hiff (conj (or_introl eq_refl) eq_refl))|].
  destruct (Hs sec7 eq_refl) as (_ & _ & _ & _ & _ & Hax & _ & Hb & Hx & _ & Hn).
  split; [exact Hax|]. split; [exact Hb|]. split; [exact Hx | exact Hn].
Defined.

(** X5 at [Section(7, 2)] followed by [Section(9, 2, shift=5, align="Top")]. *)
Lemma align_check_returns_iff_run :
  (exists r, _align_check (Some prev7) (geometry sec9_ignore) (st0 sec9_ignore)
             = (Ok r, st0 sec9_ignore))
  /\ exists off am,
       _align_check (Some prev7) (geometry sec9_ignore) (st0 sec9_ignore)
       = (Ok ("top", off, am), st0 sec9_ignore).
Proof.
  destruct (@align_check_returns_iff _ _ _ _ _ api sec9_ignore prev7 (geometry sec9_ignore)
              (pts ribbon7) [] eq_refl) as (Hiff & _ & _).
  split; [exact (proj2 Hiff (conj eq_refl eq_refl))|].
  eexists _, _. vm_compute. reflexivity.
Defined.

(** X6 at [Section(1, 2)] followed by [Section(3, 2, shift_quantum=True)]:
    the valid shifts are computed, and there are none. *)
Lemma valid_shifts_always_computed_run :
  exists vs,
    valid_shifts_of prev1 "bottom" (st0 sec3_quantum) = (Ok vs, st0 sec3_quantum)
    /\ StronglySorted Z.le vs.
Proof.
  exact (@valid_shifts_always_computed _ _ _ _ sec3_quantum prev1 "bottom" []
           ltac:(discriminate)).
Defined.

(** X7 at [Section(6, 1)] followed by [Section(6, 2, on_lone_atom="raise")]. *)
Lemma equal_widths_zero_valid_run :
  exists vs,
    valid_shifts_of prev6 "bottom" (st0 sec6_raise) = (Ok vs, st0 sec6_raise)
    /\ In 0 vs.
Proof.
  exact (@equal_widths_zero_valid _ _ _ _ sec6_raise prev6 "bottom" [] eq_refl
           ltac:(discriminate)).
Defined.

(** X8 at [Section(6, 1)] followed by [Section(3, 2, on_lone_atom="raise")]:
    the valid shifts are [[3; 3]]. *)
Lemma valid_shifts_repeat_special_run :
  valid_shifts_of prev6 "bottom" (st0 sec3_raise) = (Ok [3; 3], st0 sec3_raise)
  /\ exists vs,
       valid_shifts_of prev6 "bottom" (st0 sec3_raise) = (Ok vs, st0 sec3_raise)
       /\ (2 <= count_occ Z.eq_dec vs 3%Z)%nat.
Proof.
  split; [vm_compute; reflexivity|].
  exact (@valid_shifts_repeat_special _ _ _ _ sec3_raise prev6 "bottom" []
           eq_refl eq_refl ltac:(discriminate) eq_refl eq_refl ltac:(discriminate)).
Defined.

(** X9 at [Section(7, 2)] followed by [Section(9, 2, align="auto")] under
    raise, for the shift 1. *)
Lemma parse_shift_returns_run :
  _parse_shift 1 prev7 "c" (st0 sec9_auto) = (Ok 1, st0 sec9_auto)
  /\ exists vs,
       valid_shifts_of prev7 "c" (st0 sec9_auto) = (Ok vs, st0 sec9_auto)
       /\ In 1 vs.
Proof.
  assert (H : _parse_shift 1 prev7 "c" (st0 sec9_auto) = (Ok 1, st0 sec9_auto))
    by (vm_compute; reflexivity).
  split; [exact H|].
  destruct (@parse_shift_returns _ _ _ _ sec9_auto prev7 "c" 1 1 [] _ H)
    as (_ & _ & _ & Hv).
  destruct (Hv ltac:(discriminate)) as (vs & Hvs & _ & Hr).
  exists vs. split; [exact Hvs | exact (proj1 (Hr eq_refl))].
Defined.

(** X10 at [Section(7, 2)] followed by [Section(9, 2, align="center",
    shift_quantum=True)]: the valid shifts are the odd ones from -5 to 5, and
    the quantized shift 0 resolves to 1. *)
Lemma quantized_shift_zero_and_order_run :
  valid_shifts_of prev7 "center" (st0 sec9_quantum)
  = (Ok [-5; -3; -1; 1; 3; 5], st0 sec9_quantum)
  /\ _parse_shift 0 prev7 "center" (st0 sec9_quantum) = (Ok 1, st0 sec9_quantum)
  /\ exists v0,
       _parse_shift 0 prev7 "center" (st0 sec9_quantum) = (Ok v0, st0 sec9_quantum)
       /\ In v0 [-5; -3; -1; 1; 3; 5]
       /\ forall u, In u [-5; -3; -1; 1; 3; 5] -> Z.abs v0 <= Z.abs u.
Proof.
  assert (Hvs : valid_shifts_of prev7 "center" (st0 sec9_quantum)
                = (Ok [-5; -3; -1; 1; 3; 5], st0 sec9_quantum))
    by (vm_compute; reflexivity).
  split; [exact Hvs|]. split; [vm_compute; reflexivity|].
  destruct (@quantized_shift_zero_and_order _ _ _ _ sec9_quantum prev7 "center" [] _
              eq_refl eq_refl eq_refl Hvs ltac:(discriminate))
    as [(v0 & H0 & Hin & Hmin & _) _].
  exists v0. split; [exact H0|]. split; [exact Hin | exact Hmin].
Defined.


(** X12 at [Section(5, 1)] built first. *)
Lemma build_section_records_xyz_run :
  exists g,
    build_section None (st0 sec5) = (Ok g, st0 prev5)
    /\ xyz prev5 = Some (g_xyz g)
    /\ geometry prev5 = geometry sec5.
Proof.
  eexists.
  assert (H : build_section None (st0 sec5) = (Ok _, st0 prev5))
    by (vm_compute; reflexivity).
  split; [exact H|].
  destruct (@build_section_records_xyz _ _ _ _ _ _ _ _ _ _ H) as [Hx Hs].
  split; [exact Hx | exact (f_equal (fun s => geometry s) Hs)].
Defined.



(** X16 at [Section(7, 2)] followed by [Section(9, 2, align="auto")],
    aligned on the center: the shifts -5, -3, ..., 5 are valid, the shift 0
    is not. *)
Lemma valid_shifts_wider_odd_run :
  exists vs,
    valid_shifts_of prev7 "c" (st0 sec9_auto) = (Ok vs, st0 sec9_auto)
    /\ In 5 vs /\ In (-5) vs /\ ~ In 0 vs /\ ~ In 7 vs.
Proof.
  destruct (@valid_shifts_wider_odd _ _ _ _ sec9_auto prev7 "c" "" []
              eq_refl eq_refl eq_refl) as (vs & Hvs & Hin & _).
  exists vs. split; [exact Hvs|].
  split; [apply Hin; vm_compute; repeat split; discriminate|].
  split; [apply Hin; vm_compute; repeat split; discriminate|].
  split; intros H; apply Hin in H; vm_compute in H;
    [destruct H as [_ H]; discriminate | destruct H as [[_ H] _]; now apply H].
Defined.

(** X17 at [Section(7, 2)] followed by [Section(9, 2, align="auto")] under
    raise: aligned on the center, the shift 0 is refused and the shift 1
    accepted. *)
Lemma parse_shift_plain_resolution_run :
  _parse_shift 0 prev7 "c" (st0 sec9_auto)
  = (Raised PolicyError
       (MsgJunction prev7 sec9_auto (ShiftOneOf [-5; -3; -1; 1; 3; 5] 0)),
     st0 sec9_auto)
  /\ _parse_shift 1 prev7 "c" (st0 sec9_auto) = (Ok 1, st0 sec9_auto).
Proof.
  assert (Hvs : valid_shifts_of prev7 "c" (st0 sec9_auto)
                = (Ok [-5; -3; -1; 1; 3; 5], st0 sec9_auto))
    by (vm_compute; reflexivity).
  split.
  - exact (proj1 (@parse_shift_plain_resolution _ _ _ _ sec9_auto prev7 "c" 0 [] _
                    eq_refl eq_refl Hvs) eq_refl).
  - exact (proj1 (@parse_shift_plain_resolution _ _ _ _ sec9_auto prev7 "c" 1 [] _
                    eq_refl eq_refl Hvs) eq_refl).
Defined.

(** X18 at [Section(7, 2)] followed by [Section(9, 2, align="center",
    shift_quantum=True)]: the aligned index is 3 (the shift 1), the quantized
    shift -3 resolves to -5 and the quantized shift 3 is out of range. *)
Lemma parse_shift_quantized_run :
  _parse_shift (-3) prev7 "center" (st0 sec9_quantum) = (Ok (-5), st0 sec9_quantum)
  /\ _parse_shift 3 prev7 "center" (st0 sec9_quantum)
     = (Raised PolicyError (MsgJunction prev7 sec9_quantum (ShiftBetween (-3) 2 3)),
        st0 sec9_quantum)
  /\ exists k v,
       nth_error [-5; -3; -1; 1; 3; 5] k = Some v
       /\ forall u, In u [-5; -3; -1; 1; 3; 5] -> Z.abs v <= Z.abs u.
Proof.
  assert (Hvs : valid_shifts_of prev7 "center" (st0 sec9_quantum)
                = (Ok [-5; -3; -1; 1; 3; 5], st0 sec9_quantum))
    by (vm_compute; reflexivity).
  split; [vm_compute; reflexivity|]. split; [vm_compute; reflexivity|].
  destruct (@parse_shift_quantized _ _ _ _ sec9_quantum prev7 "center" 0 [] _
              eq_refl eq_refl eq_refl Hvs ltac:(discriminate))
    as (k & v & _ & Hv & _ & Hnear & _).
  exists k, v. split; [exact Hv|].
  intros u Hu. apply Hnear; [|exact Hu].
  cbn. intuition discriminate.
Defined.



End Runs.
